(** * casq: CellDesigner to SBML-qual conversion

    A shallow embedding of [celldesigner2qual.py] and the properties of its
    three phases: species extraction ([species_info]), transition
    extraction ([get_transitions]) and emission ([write_qual]).

    Python values are modelled as follows.  A [str] is a [string] (the
    UTF-8 bytes of the text); a value that is either a [str] or [None]
    (the result of [Element.get], of [Element.text]) is an [option string];
    the insertion-ordered [dict] is an association list; exceptions are
    the [Raise] case of the [Exc] monad. *)

From Stdlib Require Import List String Ascii Arith Bool Lia DecimalString.
From Stdlib Require Import DecimalNat FinFun.
Import ListNotations.
Local Open Scope string_scope.
Local Open Scope list_scope.

Set Implicit Arguments.
Set Warnings "-register-all".

(* ================================================================= *)
(** ** Python runtime: exceptions, formatting, dictionaries *)

Module Py.

Inductive Exn : Type :=
| AttributeError   (* attribute access on None *)
| TypeError        (* str + None, or serialising None *)
| IndexError
| SystemExit (code : nat)   (* exit(code) *)
| OSError          (* the output file cannot be opened *)
| ParseError       (* etree.parse fails *)
| PathError.       (* ElementPath rejects a path *)

Inductive Exc (A : Type) : Type :=
| Ok (a : A)
| Raise (e : Exn).
Arguments Ok {A} a.
Arguments Raise {A} e.

Definition bind {A B} (c : Exc A) (k : A -> Exc B) : Exc B :=
  match c with
  | Ok a => k a
  | Raise e => Raise e
  end.

(** [x.attr] where [x] may be None. *)
Definition deref {A} (x : option A) : Exc A :=
  match x with
  | Some a => Ok a
  | None => Raise AttributeError
  end.

(** A value that is a [str] or [None]. *)
Definition Str : Type := option string.

Definition Str_eqb (a b : Str) : bool :=
  match a, b with
  | Some s, Some t => String.eqb s t
  | None, None => true
  | _, _ => false
  end.

(** [f'{v}'] for a [str] or [None]. *)
Definition fmt (v : Str) : string :=
  match v with
  | Some s => s
  | None => "None"
  end.

(** [f'{n}'] for an [int] that is a natural number. *)
Definition fmt_int (n : nat) : string :=
  NilEmpty.string_of_uint (Nat.to_uint n).

(** [enumerate(l)] *)
Definition enumerate {A} (l : list A) : list (nat * A) :=
  combine (seq 0 (List.length l)) l.

(** The insertion-ordered dictionary, keyed by a [str] or [None]. *)
Section Dict.
Variable V : Type.

Definition dict : Type := list (Str * V).

Definition keys (d : dict) : list Str := map fst d.

Fixpoint dict_get (k : Str) (d : dict) : option V :=
  match d with
  | [] => None
  | (k', v) :: d' => if Str_eqb k k' then Some v else dict_get k d'
  end.

(** [k in d] *)
Definition dict_mem (k : Str) (d : dict) : bool :=
  match dict_get k d with
  | Some _ => true
  | None => false
  end.

(** [d[k] = v]: an existing key keeps its position and takes the new
    value, a new key goes to the end. *)
Fixpoint dict_set (k : Str) (v : V) (d : dict) : dict :=
  match d with
  | [] => [(k, v)]
  | (k', v') :: d' =>
      if Str_eqb k k' then (k', v) :: d'
      else (k', v') :: dict_set k v d'
  end.

(** In-place change of the value stored at [k] (a no-op on a missing
    key; the callers test membership first). *)
Fixpoint dict_update (k : Str) (f : V -> V) (d : dict) : dict :=
  match d with
  | [] => []
  | (k', v') :: d' =>
      if Str_eqb k k' then (k', f v') :: d'
      else (k', v') :: dict_update k f d'
  end.
End Dict.

End Py.

Import Py.

Declare Scope exc_scope.
Delimit Scope exc_scope with exc.
Notation "x <- c ;; k" := (bind c (fun x => k))
  (at level 61, c at next level, right associativity) : exc_scope.
Local Open Scope exc_scope.

(* ================================================================= *)
(** ** xml.etree.ElementTree: parsed elements and the path queries used *)

Module ElementTree.

(** A parsed element: its tag in Clark notation ([{uri}local]), its
    attributes, its text and its children in document order. *)
Inductive Element : Type :=
| Elem (tag : string) (attrib : list (string * string))
       (text : Str) (children : list Element).

Definition tag (e : Element) : string :=
  match e with Elem t _ _ _ => t end.
Definition attrib (e : Element) : list (string * string) :=
  match e with Elem _ a _ _ => a end.
Definition text (e : Element) : Str :=
  match e with Elem _ _ t _ => t end.
Definition children (e : Element) : list Element :=
  match e with Elem _ _ _ c => c end.

(** [e.get(key)] *)
Fixpoint assoc (key : string) (l : list (string * string)) : Str :=
  match l with
  | [] => None
  | (k, v) :: l' => if String.eqb key k then Some v else assoc key l'
  end.

Definition get (key : string) (e : Element) : Str := assoc key (attrib e).

(** [bool(e)]: an element is true when it has children. *)
Definition truthy (e : Element) : bool :=
  match children e with
  | [] => false
  | _ :: _ => true
  end.

(** [e.iter()]: the element and its descendants in document order. *)
Fixpoint iter (e : Element) : list Element :=
  match e with
  | Elem _ _ _ cs => e :: flat_map iter cs
  end.

Definition has_tag (t : string) (e : Element) : bool := String.eqb (tag e) t.

(** One child step [/t] of a path, applied to a result list. *)
Definition child_step (t : string) (result : list Element) : list Element :=
  flat_map (fun e => filter (has_tag t) (children e)) result.

(** The descendant step [//t]: [e.iter(t)] without [e] itself. *)
Definition descendant_step (t : string) (result : list Element)
  : list Element :=
  flat_map (fun e => filter (has_tag t) (flat_map iter (children e))) result.

(** The predicate [[@key]]. *)
Definition has_attr (key : string) (result : list Element) : list Element :=
  filter (fun e => match get key e with Some _ => true | None => false end)
         result.

(** The predicate [[@key="value"]]. *)
Definition attr_is (key value : string) (result : list Element)
  : list Element :=
  filter (fun e => Str_eqb (get key e) (Some value)) result.

(** [./t1/t2/.../tn] *)
Definition child_path (ts : list string) (e : Element) : list Element :=
  fold_left (fun result t => child_step t result) ts [e].

(** [find] is the first element of [findall]. *)
Definition first (result : list Element) : option Element := hd_error result.

(** [e.find('.//t')] *)
Definition find_descendant (t : string) (e : Element) : option Element :=
  first (descendant_step t [e]).

End ElementTree.

Import ElementTree.

(* ================================================================= *)
(** ** The species table *)

(** The namespace map [NS] and the tags it resolves path prefixes to. *)
Definition NS : list (string * string) :=
  [ ("sbml", "http://www.sbml.org/sbml/level2/version4");
    ("cd", "http://www.sbml.org/2001/ns/celldesigner");
    ("sbml3", "http://www.sbml.org/sbml/level3/version1/core");
    ("layout", "http://www.sbml.org/sbml/level3/version1/layout/version1");
    ("qual", "http://www.sbml.org/sbml/level3/version1/qual/version1") ].

Definition NS_get (prefix : string) : string :=
  match assoc prefix NS with
  | Some uri => uri
  | None => ""
  end.

(** [prefix:local] resolved against [NS], in Clark notation. *)
Definition qn (prefix local : string) : string :=
  ("{" ++ NS_get prefix ++ "}" ++ local)%string.

Definition in_sbml (local : string) : string := qn "sbml" local.
Definition in_cd (local : string) : string := qn "cd" local.

(** One reaction as stored in a species' [transitions] list: the tuple
    [(rtype, reacs, mods)]. *)
Definition Influence : Type :=
  (Str * list Str * list (Str * Str))%type.

(** The value stored in the table for one alias. *)
Record SpeciesRecord : Type := mkRecord {
  activity : Str;
  x : Str;
  y : Str;
  h : Str;
  w : Str;
  transitions : list Influence;
  name : Str;
  type : Str;
  modifications : list Str;
}.

Definition SpeciesTable : Type := dict SpeciesRecord.

(** The record with [rs] added at the end of its [transitions]. *)
Definition extend (rs : list Influence) (data : SpeciesRecord)
  : SpeciesRecord :=
  {| activity := activity data; x := x data; y := y data; h := h data;
     w := w data; transitions := transitions data ++ rs;
     name := name data; type := type data;
     modifications := modifications data |}.

(** [data['transitions'].append(r)] *)
Definition append_transition (r : Influence) (data : SpeciesRecord)
  : SpeciesRecord := extend [r] data.

(** The double quote, which closes the literal of an [[@id="..."]]
    predicate. *)
Definition dquote : ascii := ascii_of_nat 34.

Fixpoint has_dquote (s : string) : bool :=
  match s with
  | EmptyString => false
  | String c s' => if Ascii.eqb c dquote then true else has_dquote s'
  end.

(* ================================================================= *)
(** ** Species extraction and transition extraction *)

(** [get_class]: celldesigner:class to class. *)
Definition get_class (cd_class : option Element) : Str :=
  match cd_class with
  | Some e => text e
  | None => Some "PROTEIN"
  end.

(** [get_mods]: celldesigner:listOfModifications to list of mods.  The
    test [if cd_modifications:] is false for None and for an element
    without children. *)
Definition get_mods (cd_modifications : option Element) : list Str :=
  match cd_modifications with
  | Some e =>
      if truthy e
      then map (get "state") (child_path [in_cd "modification"] e)
      else []
  | None => []
  end.

(** The two [findall] queries of [species_info]. *)
Definition complex_aliases (model : Element) : list Element :=
  has_attr "compartmentAlias"
    (child_path [in_sbml "annotation"; in_cd "extension";
                 in_cd "listOfComplexSpeciesAliases";
                 in_cd "complexSpeciesAlias"] model).

Definition simple_aliases (model : Element) : list Element :=
  has_attr "compartmentAlias"
    (child_path [in_sbml "annotation"; in_cd "extension";
                 in_cd "listOfSpeciesAliases";
                 in_cd "speciesAlias"] model).

Section Extraction.

(** The species definition is looked up with a path that splices the
    alias' [species] attribute between double quotes.  A reference free
    of double quotes is one string literal of that path; one that
    contains a double quote is read by ElementPath as path syntax, and
    what [model.find] then does is left open here. *)
Variable find_quoted : string -> Element -> Exc (option Element).

Definition find_species (model : Element) (ref : Str)
  : Exc (option Element) :=
  match ref with
  | None => Raise TypeError
  | Some r =>
      if has_dquote r then find_quoted r model
      else Ok (first (attr_is "id" r
                 (child_path [in_sbml "listOfSpecies"; in_sbml "species"]
                             model)))
  end.

(** The body of the loop of [species_info]: the key and the record that
    one alias adds to [nameconv]. *)
Definition species_entry (model species : Element)
  : Exc (Str * SpeciesRecord) :=
  act <- deref (find_descendant (in_cd "activity") species) ;;
  let activity := text act in
  let bound := find_descendant (in_cd "bounds") species in
  found <- find_species model (get "species" species) ;;
  sbml <- deref found ;;
  annot <- deref (first (child_path [in_sbml "annotation"] sbml)) ;;
  let cls := get_class (find_descendant (in_cd "class") annot) in
  let mods :=
    get_mods (find_descendant (in_cd "listOfModifications") annot) in
  b <- deref bound ;;
  Ok (get "id" species,
      {| activity := activity;
         x := get "x" b; y := get "y" b; h := get "h" b; w := get "w" b;
         transitions := [];
         name := get "name" sbml;
         type := cls;
         modifications := mods |}).

Fixpoint species_loop (model : Element) (aliases : list Element)
         (nameconv : SpeciesTable) : Exc SpeciesTable :=
  match aliases with
  | [] => Ok nameconv
  | species :: rest =>
      kv <- species_entry model species ;;
      species_loop model rest (dict_set (fst kv) (snd kv) nameconv)
  end.

(** [species_info]: create a map from species' ids to their attributes. *)
Definition species_info (model : Element) : Exc SpeciesTable :=
  species_loop model (complex_aliases model ++ simple_aliases model) [].

End Extraction.

(** What [get_transitions] reads from one reaction element: the tuple it
    appends and the product aliases it appends it to. *)
Definition read_reaction (trans : Element) : Exc (Influence * list Str) :=
  annot <- deref (first (child_path [in_sbml "annotation"; in_cd "extension"]
                                    trans)) ;;
  rt <- deref (first (child_path [in_cd "reactionType"] annot)) ;;
  let rtype := text rt in
  let reacs :=
    map (get "alias")
        (child_path [in_cd "baseReactants"; in_cd "baseReactant"] annot) in
  let prods :=
    map (get "alias")
        (child_path [in_cd "baseProducts"; in_cd "baseProduct"] annot) in
  let mods :=
    map (fun m => (get "type" m, get "aliases" m))
        (child_path [in_cd "listOfModification"; in_cd "modification"]
                    annot) in
  Ok ((rtype, reacs, mods), prods).

Definition diagnostic (species : Str) : string :=
  ("ignoring unknown species " ++ fmt species)%string.

(** The inner loop [for species in prods]; the state is the table and the
    lines printed so far. *)
Fixpoint product_loop (r : Influence) (prods : list Str)
         (info : SpeciesTable) (out : list string)
  : SpeciesTable * list string :=
  match prods with
  | [] => (info, out)
  | species :: rest =>
      if dict_mem species info
      then product_loop r rest
             (dict_update species (append_transition r) info) out
      else product_loop r rest info (out ++ [diagnostic species])
  end.

Fixpoint reaction_loop (reactions : list Element)
         (info : SpeciesTable) (out : list string)
  : Exc SpeciesTable * list string :=
  match reactions with
  | [] => (Ok info, out)
  | trans :: rest =>
      match read_reaction trans with
      | Raise e => (Raise e, out)
      | Ok (r, prods) =>
          let (info', out') := product_loop r prods info out in
          reaction_loop rest info' out'
      end
  end.

Definition reactions_of (model : Element) : list Element :=
  child_path [in_sbml "listOfReactions"; in_sbml "reaction"] model.

(** [get_transitions]: find all transitions.  Returns the table and the
    lines printed. *)
Definition get_transitions (model : Element) (info : SpeciesTable)
  : Exc SpeciesTable * list string :=
  reaction_loop (reactions_of model) info [].

(* ================================================================= *)
(** ** Emission of the SBML-qual document *)

Module Emit.

(** An element built with [etree.Element] / [etree.SubElement].  The
    attribute values are whatever the program stored, so they may be
    None; no built element has text. *)
Inductive Node : Type :=
| N (tag : string) (attrib : list (string * Str)) (children : list Node).

Definition ntag (n : Node) : string := match n with N t _ _ => t end.
Definition nattrib (n : Node) : list (string * Str) :=
  match n with N _ a _ => a end.
Definition nchildren (n : Node) : list Node :=
  match n with N _ _ c => c end.

(** The value stored for an attribute, if the attribute is there. *)
Fixpoint attr (key : string) (l : list (string * Str)) : option Str :=
  match l with
  | [] => None
  | (k, v) :: l' => if String.eqb key k then Some v else attr key l'
  end.

Definition nget (key : string) (n : Node) : option Str :=
  attr key (nattrib n).

(** *** add_positions *)

Definition speciesGlyph (species : Str) (data : SpeciesRecord) : Node :=
  N "layout:speciesGlyph" [("layout:species", species)]
    [N "layout:boundingBox" []
       [N "layout:position"
          [("layout:x", x data); ("layout:y", y data)] [];
        N "layout:dimensions"
          [("layout:height", h data); ("layout:width", w data)] []]].

Definition qualitativeSpecies (species : Str) (data : SpeciesRecord)
  : Node :=
  N "qual:qualitativeSpecies"
    [("qual:maxLevel", Some "1");
     ("qual:compartment", Some "comp1");
     ("qual:name", name data);
     ("qual:constant", Some "false");
     ("qual:id", species)] [].

(** [add_positions]: the [listOfSpeciesGlyphs] element added to the
    layout and the elements added to [qlist], one of each per item of
    [info.items()]. *)
Definition add_positions (info : SpeciesTable) : Node * list Node :=
  (N "layout:listOfSpeciesGlyphs" []
     (map (fun kv => speciesGlyph (fst kv) (snd kv)) info),
   map (fun kv => qualitativeSpecies (fst kv) (snd kv)) info).

(** *** add_transitions *)

(** The first component of the pairs the inner loop iterates over: the
    position that [enumerate] gives a reactant, or the type of a
    declared modifier. *)
Inductive ModType : Type :=
| Position (i : nat)
| TypeTag (t : Str).

(** [modtype == 'INHIBITION'] (an int never equals a str). *)
Definition is_inhibition (modtype : ModType) : bool :=
  match modtype with
  | Position _ => false
  | TypeTag t => Str_eqb t (Some "INHIBITION")
  end.

(** [chain(enumerate(reaction[1]), reaction[2])] *)
Definition chain_modifiers (reaction : Influence) : list (ModType * Str) :=
  let '(_, reacs, mods) := reaction in
  map (fun p => (Position (fst p), snd p)) (enumerate reacs)
  ++ map (fun p => (TypeTag (fst p), snd p)) mods.

Definition sign_of (modtype : ModType) : string :=
  if is_inhibition modtype then "negative" else "positive".

Definition input_id (species : Str) (index : nat) : string :=
  ("tr_" ++ fmt species ++ "_in_" ++ fmt_int index)%string.

Definition input (species : Str) (index : nat)
           (modtype : ModType) (modifier : Str) : Node :=
  N "qual:input"
    [("qual:qualitativeSpecies", modifier);
     ("qual:transitionEffect", Some "none");
     ("qual:sign", Some (sign_of modtype));
     ("qual:id", Some (input_id species index))] [].

(** The loop over one reaction's reactants and modifiers; the state is
    the children of [ilist] and [index]. *)
Fixpoint modifier_loop (species : Str) (l : list (ModType * Str))
         (ilist : list Node) (index : nat) : list Node * nat :=
  match l with
  | [] => (ilist, index)
  | (modtype, modifier) :: rest =>
      modifier_loop species rest
        (ilist ++ [input species index modtype modifier]) (index + 1)
  end.

(** The loop [for reaction in data['transitions']]. *)
Fixpoint input_loop (species : Str) (reactions : list Influence)
         (ilist : list Node) (index : nat) : list Node * nat :=
  match reactions with
  | [] => (ilist, index)
  | reaction :: rest =>
      let (ilist', index') :=
        modifier_loop species (chain_modifiers reaction) ilist index in
      input_loop species rest ilist' index'
  end.

Definition output (species : Str) : Node :=
  N "qual:output"
    [("qual:qualitativeSpecies", species);
     ("qual:transitionEffect", Some "assignmentLevel");
     ("qual:id", Some ("tr_" ++ fmt species ++ "_out")%string)] [].

Definition defaultTerm : Node :=
  N "qual:defaultTerm" [("qual:resultLevel", Some "0")] [].

Definition transition (species : Str) (data : SpeciesRecord) : Node :=
  N "qual:transition" [("qual:id", Some ("tr_" ++ fmt species)%string)]
    [N "qual:listOfInputs" []
       (fst (input_loop species (transitions data) [] 0));
     N "qual:listOfOutputs" [] [output species];
     N "qual:listOfFunctionTerms" [] [defaultTerm]].

(** [add_transitions]: the elements added to [tlist]. *)
Definition add_transitions (info : SpeciesTable) : list Node :=
  map (fun kv => transition (fst kv) (snd kv)) info.

(** *** write_qual *)

(** The tree that [write_qual] hands to [tree.write]. *)
Definition qual_tree (info : SpeciesTable) : Node :=
  let (glyphs, species) := add_positions info in
  N "sbml"
    [("level", Some "3"); ("version", Some "1");
     ("layout:required", Some "false");
     ("xmlns", Some (NS_get "sbml3"));
     ("qual:required", Some "true");
     ("xmlns:layout", Some (NS_get "layout"));
     ("xmlns:qual", Some (NS_get "qual"))]
    [N "model" [("id", Some "model_id")]
       [N "listOfCompartments" []
          [N "compartment" [("constant", Some "true"); ("id", Some "comp1")]
             []];
        N "layout:listOfLayouts" [] [N "layout:layout" [] [glyphs]];
        N "qual:listOfQualitativeSpecies" [] species;
        N "qual:listOfTransitions" [] (add_transitions info)]].

(** The parts of the tree the properties below talk about. *)
Definition model_of (doc : Node) : list Node :=
  flat_map nchildren (filter (fun n => String.eqb (ntag n) "model")
                             (nchildren doc)).

Definition list_of (t : string) (doc : Node) : list Node :=
  flat_map nchildren (filter (fun n => String.eqb (ntag n) t)
                             (model_of doc)).

Definition emitted_species (doc : Node) : list Node :=
  list_of "qual:listOfQualitativeSpecies" doc.

Definition emitted_transitions (doc : Node) : list Node :=
  list_of "qual:listOfTransitions" doc.

Definition part (t : string) (trans : Node) : list Node :=
  flat_map nchildren (filter (fun n => String.eqb (ntag n) t)
                             (nchildren trans)).

Definition inputs_of (trans : Node) : list Node :=
  part "qual:listOfInputs" trans.
Definition outputs_of (trans : Node) : list Node :=
  part "qual:listOfOutputs" trans.
Definition terms_of (trans : Node) : list Node :=
  part "qual:listOfFunctionTerms" trans.

(** *** Serialisation ([ElementTree.write], xml method) *)

Fixpoint replace (c : ascii) (by_ : string) (s : string) : string :=
  match s with
  | EmptyString => EmptyString
  | String a s' =>
      if Ascii.eqb a c then (by_ ++ replace c by_ s')%string
      else String a (replace c by_ s')
  end.

Definition quot : string := String dquote EmptyString.

(** [_escape_attrib] on a [str]. *)
Definition escape_attrib (text : string) : string :=
  replace (ascii_of_nat 9) "&#09;"
    (replace (ascii_of_nat 10) "&#10;"
       (replace (ascii_of_nat 13) "&#13;"
          (replace dquote "&quot;"
             (replace ">" "&gt;"
                (replace "<" "&lt;"
                   (replace "&" "&amp;" text)))))).

(** The attributes of one start tag; a None value cannot be
    serialised. *)
Fixpoint serialize_items (items : list (string * Str)) : Exc string :=
  match items with
  | [] => Ok EmptyString
  | (k, None) :: _ => Raise TypeError
  | (k, Some v) :: rest =>
      r <- serialize_items rest ;;
      Ok (" " ++ k ++ "=" ++ quot ++ escape_attrib v ++ quot ++ r)%string
  end.

(** The loop [for e in elem: _serialize_xml(write, e, ...)]: what the
calls write, one after the other. *)
Section Each.
Variable serialize : Node -> Exc string.

Fixpoint each (l : list Node) : Exc string :=
  match l with
  | [] => Ok EmptyString
  | e :: l' =>
      s <- serialize e ;;
      r <- each l' ;;
      Ok (s ++ r)%string
  end.
End Each.

(** [_serialize_xml] with short empty elements. *)
Fixpoint serialize_xml (elem : Node) : Exc string :=
  match elem with
  | N tag items cs =>
      a <- serialize_items items ;;
      match cs with
      | [] => Ok ("<" ++ tag ++ a ++ " />")%string
      | _ :: _ =>
          body <- each serialize_xml cs ;;
          Ok ("<" ++ tag ++ a ++ ">" ++ body ++ "</" ++ tag ++ ">")%string
      end
  end.

Definition xml_declaration : string :=
  ("<?xml version='1.0' encoding='UTF-8'?>" ++ String (ascii_of_nat 10) "")
    %string.

(** What a run leaves at the output path. *)
Inductive FileState : Type :=
| Complete (bytes : string)   (* written and closed *)
| Incomplete.                 (* opened, then the write raised *)

(** [write_qual]: the outcome and what is left at [filename].  The file
    is opened (and so created or emptied) before anything is
    serialised. *)
Definition write_qual (can_open : string -> bool) (filename : string)
           (info : SpeciesTable)
  : Exc unit * option (string * FileState) :=
  let root := qual_tree info in
  if can_open filename then
    match serialize_xml root with
    | Ok s => (Ok tt, Some (filename, Complete (xml_declaration ++ s)))
    | Raise e => (Raise e, Some (filename, Incomplete))
    end
  else (Raise OSError, None).

End Emit.

Import Emit.

(* ================================================================= *)
(** ** The command-line program *)

Module Cli.

(** What a run can observe: [sys.argv], what [etree.parse(path).getroot()]
    gives for each path, and which paths can be opened for writing. *)
Record World : Type := mkWorld {
  argv : list string;
  parse : string -> Exc Element;
  can_open : string -> bool;
}.

(** What a run does: the lines printed, how it ends ([Ok tt]: [main]
    returns; [Raise (SystemExit c)]: it exits with status [c]; any other
    [Raise]: an uncaught exception), and what it leaves at the output
    path, if it opened it. *)
Record Outcome : Type := mkOutcome {
  stdout : list string;
  result : Exc unit;
  written : option (string * FileState);
}.

Definition schema_message : string :=
  "Currently limited to SBML Level 2 Version 4".

(** U+2026, the last character of the progress line. *)
Definition ellipsis : string :=
  String (ascii_of_nat 226)
    (String (ascii_of_nat 128) (String (ascii_of_nat 166) EmptyString)).

Definition usage (argv0 : string) : string :=
  ("Usage: [python3] " ++ argv0 ++ " "
   ++ "<celldesignerinfile.xml> <sbmlqualoutfile.xml>")%string.

Section Run.

Variable find_quoted : string -> Element -> Exc (option Element).

(** [read_celldesigner]: main file parsing function.  Returns the
    table (or how the call ended) and the lines printed. *)
Definition read_celldesigner (parse : string -> Exc Element)
           (filename : string) : Exc SpeciesTable * list string :=
  match parse filename with
  | Raise e => (Raise e, [])
  | Ok root =>
      if negb (String.eqb (tag root) (in_sbml "sbml"))
      then (Raise (SystemExit 1), [schema_message])
      else
        match first (child_path [in_sbml "model"] root) with
        | None => (Raise AttributeError, [])
        | Some model =>
            match species_info find_quoted model with
            | Raise e => (Raise e, [])
            | Ok info => get_transitions model info
            end
        end
  end.

(** [main]: run conversion using the CLI given first argument. *)
Definition main (world : World) : Outcome :=
  match argv world with
  | [_; celldesignerfile; outfile] =>
      let progress := ("parsing " ++ celldesignerfile ++ ellipsis)%string in
      match read_celldesigner (parse world) celldesignerfile with
      | (Raise e, out) =>
          {| stdout := progress :: out; result := Raise e;
             written := None |}
      | (Ok info, out) =>
          let (r, f) := write_qual (can_open world) outfile info in
          {| stdout := progress :: out; result := r; written := f |}
      end
  | argv0 :: _ =>
      {| stdout := [usage argv0]; result := Raise (SystemExit 1);
         written := None |}
  | [] =>
      {| stdout := []; result := Raise IndexError; written := None |}
  end.

End Run.

End Cli.

Import Cli.

(* ================================================================= *)
(** ** Sample documents *)

Module Sample.

Definition el (t : string) (a : list (string * string))
           (c : list Element) : Element := Elem t a None c.

Definition leaf (t : string) (txt : string) : Element :=
  Elem t [] (Some txt) [].

(** A species alias placed in a compartment. *)
Definition alias (kind id species : string) (inner : list Element)
  : Element :=
  el (in_cd kind)
     [("id", id); ("species", species); ("compartmentAlias", "ca1")] inner.

Definition act : Element := leaf (in_cd "activity") "inactive".
Definition bounds : Element :=
  el (in_cd "bounds") [("x", "10.0"); ("y", "20.0");
                       ("w", "80.0"); ("h", "40.0")] [].

(** A species definition with the given attributes and the given
    content of its annotation. *)
Definition species_def (a : list (string * string))
           (annot : list Element) : Element :=
  el (in_sbml "species") a
     [el (in_sbml "annotation") [] [el (in_cd "extension") [] annot]].

Definition class (c : string) : Element := leaf (in_cd "class") c.

Definition reaction (rtype : string) (reacs prods : list string)
           (mods : list (string * string)) : Element :=
  el (in_sbml "reaction") []
     [el (in_sbml "annotation") []
        [el (in_cd "extension") []
           [leaf (in_cd "reactionType") rtype;
            el (in_cd "baseReactants") []
               (map (fun a => el (in_cd "baseReactant") [("alias", a)] [])
                    reacs);
            el (in_cd "baseProducts") []
               (map (fun a => el (in_cd "baseProduct") [("alias", a)] [])
                    prods);
            el (in_cd "listOfModification") []
               (map (fun m : string * string =>
                       el (in_cd "modification")
                          [("type", fst m); ("aliases", snd m)] [])
                    mods)]]].

Definition model (complexes simples defs reactions : list Element)
  : Element :=
  el (in_sbml "model") [("id", "m")]
     [el (in_sbml "annotation") []
        [el (in_cd "extension") []
           [el (in_cd "listOfComplexSpeciesAliases") [] complexes;
            el (in_cd "listOfSpeciesAliases") [] simples]];
      el (in_sbml "listOfSpecies") [] defs;
      el (in_sbml "listOfReactions") [] reactions].

Definition document (m : Element) : Element :=
  el (in_sbml "sbml") [("level", "2"); ("version", "4")] [m].

(** The behaviour of a quoted species reference is never consulted on
    these documents. *)
Definition no_quoted (r : string) (m : Element) : Exc (option Element) :=
  Raise PathError.

(** Two simple aliases and one reaction from [sa1] to [sa2], modified by
    an inhibitor [sa3] and a catalyst [sa1]; a second product [sa9] is
    not in the table. *)
Definition m1 : Element :=
  model []
    [alias "speciesAlias" "sa1" "s1" [act; bounds];
     alias "speciesAlias" "sa2" "s2" [act; bounds];
     el (in_cd "speciesAlias") [("id", "sa4"); ("species", "s1")]
        [act; bounds]]
    [species_def [("id", "s1"); ("name", "A")] [class "PROTEIN"];
     species_def [("id", "s2"); ("name", "B")] [class "GENE"]]
    [reaction "INHIBITION" ["sa1"] ["sa2"; "sa9"]
       [("INHIBITION", "sa3"); ("CATALYSIS", "sa1")]].

(** One placed alias [sa1] of the species [s1]; the alias element has
the children [inner], and the species definitions are [defs]. *)
Definition single (inner defs : list Element) : Element :=
  model [] [alias "speciesAlias" "sa1" "s1" inner] defs [].

Definition no_activity : Element :=
  single [bounds] [species_def [("id", "s1"); ("name", "A")] []].

Definition no_bounds : Element :=
  single [act] [species_def [("id", "s1"); ("name", "A")] []].

Definition no_definition : Element :=
  single [act; bounds] [species_def [("id", "s2"); ("name", "B")] []].

Definition no_annotation : Element :=
  single [act; bounds]
         [el (in_sbml "species") [("id", "s1"); ("name", "A")] []].


(** The species definition has no name attribute. *)
Definition no_name : Element :=
  single [act; bounds] [species_def [("id", "s1")] [class "PROTEIN"]].

Definition world (doc : Element) : World :=
  {| argv := ["casq"; "in.xml"; "out.xml"];
     parse := fun _ => Ok doc;
     can_open := fun _ => true |}.

(** The table that species extraction builds from [m1]. *)
Definition table1 : SpeciesTable :=
  match species_info no_quoted m1 with
  | Ok info => info
  | Raise _ => []
  end.

(** A document with another root element. *)
Definition html : Element := el "html" [] [].

(** A protein [sa1] and a gene [sa2]; one reaction of type INHIBITION
with the base reactant [sa1], the base product [sa2] and no modifier. *)
Definition scenario : Element :=
  model []
    [alias "speciesAlias" "sa1" "s1" [act; bounds];
     alias "speciesAlias" "sa2" "s2" [act; bounds]]
    [species_def [("id", "s1"); ("name", "A")] [class "PROTEIN"];
     species_def [("id", "s2"); ("name", "B")] [class "GENE"]]
    [reaction "INHIBITION" ["sa1"] ["sa2"] []].

(** Two placed aliases that share the id [sa1]. *)
Definition shared_id : Element :=
  model []
    [alias "speciesAlias" "sa1" "s1" [act; bounds];
     alias "speciesAlias" "sa1" "s2" [act; bounds]]
    [species_def [("id", "s1"); ("name", "A")] [class "PROTEIN"];
     species_def [("id", "s2"); ("name", "B")] [class "GENE"]]
    [].

(** A reaction that names its product twice. *)
Definition product_twice : Element :=
  model []
    [alias "speciesAlias" "sa1" "s1" [act; bounds]]
    [species_def [("id", "s1"); ("name", "A")] [class "PROTEIN"]]
    [reaction "STATE_TRANSITION" [] ["sa1"; "sa1"] []].

(** The table of a run, or the empty table when the run raises. *)
Definition table_of (m : Element) : SpeciesTable :=
  match species_info no_quoted m with
  | Ok info =>
      match fst (get_transitions m info) with
      | Ok info' => info'
      | Raise _ => []
      end
  | Raise _ => []
  end.

Definition modifications_list (states : list string) : Element :=
  el (in_cd "listOfModifications") []
     (map (fun st => el (in_cd "modification") [("state", st)] []) states).

End Sample.

(* ================================================================= *)
(** ** The specification's vocabulary *)

Module Spec.

(** Where an input of a transition comes from: a base reactant of the
    reaction, or a declared modifier with its type tag. *)
Inductive Origin : Type :=
| Reactant
| Modifier (type_tag : Str).

(** The aliases that one influence contributes: its base reactants
    first, then its declared modifiers. *)
Definition contributors (r : Influence) : list (Origin * Str) :=
  let '(_, reacs, mods) := r in
  map (fun a => (Reactant, a)) reacs
  ++ map (fun m => (Modifier (fst m), snd m)) mods.

(** How often [species] is named in a list of aliases. *)
Definition occurrences (species : Str) (l : list Str) : nat :=
  List.length (filter (Str_eqb species) l).

(** What one reaction element adds to the [transitions] of [species]:
    its tuple, once per mention of [species] among its base products. *)
Definition influence_on (species : Str) (trans : Element)
  : list Influence :=
  match read_reaction trans with
  | Ok (r, prods) => repeat r (occurrences species prods)
  | Raise _ => []
  end.

(** The diagnostics of one reaction element: one line per base product
    that is no key of the table. *)
Definition unknown_products (info : SpeciesTable) (trans : Element)
  : list string :=
  match read_reaction trans with
  | Ok (_, prods) =>
      map diagnostic (filter (fun p => negb (dict_mem p info)) prods)
  | Raise _ => []
  end.

Definition readable (trans : Element) : Prop :=
  exists rp, read_reaction trans = Ok rp.

(** The aliases that species extraction processes, in its order, and
    all alias elements of the two lists. *)
Definition placed_aliases (model : Element) : list Element :=
  complex_aliases model ++ simple_aliases model.

Definition all_aliases (model : Element) : list Element :=
  child_path [in_sbml "annotation"; in_cd "extension";
              in_cd "listOfComplexSpeciesAliases";
              in_cd "complexSpeciesAlias"] model
  ++ child_path [in_sbml "annotation"; in_cd "extension";
                 in_cd "listOfSpeciesAliases";
                 in_cd "speciesAlias"] model.

(** The species definition an alias refers to, and its annotation. *)
Definition definition_of (model alias : Element) : option Element :=
  match get "species" alias with
  | Some ref =>
      first (attr_is "id" ref
               (child_path [in_sbml "listOfSpecies"; in_sbml "species"]
                           model))
  | None => None
  end.

Definition annotation_of (model alias : Element) : option Element :=
  match definition_of model alias with
  | Some s => first (child_path [in_sbml "annotation"] s)
  | None => None
  end.

(** An alias all of whose unguarded lookups succeed: it has an activity
    and a bounds element, and its species reference (free of double
    quotes) names a species definition that has an annotation. *)
Definition resolvable (model alias : Element) : bool :=
  match find_descendant (in_cd "activity") alias,
        find_descendant (in_cd "bounds") alias,
        get "species" alias,
        annotation_of model alias with
  | Some _, Some _, Some ref, Some _ => negb (has_dquote ref)
  | _, _, _, _ => false
  end.

(** The first occurrence of each key, in order. *)
Fixpoint first_occurrences (seen l : list Str) : list Str :=
  match l with
  | [] => []
  | k :: l' =>
      if existsb (Str_eqb k) seen then first_occurrences seen l'
      else k :: first_occurrences (seen ++ [k]) l'
  end.

(** [n] carries the attribute [key] with the value [v]. *)
Definition has_value (key : string) (v : Str) (n : Node) : bool :=
  match nget key n with
  | Some v' => Str_eqb v' v
  | None => false
  end.

(** The transition [t] has an output that refers to [species]. *)
Definition assigns (species : Str) (t : Node) : bool :=
  existsb (has_value "qual:qualitativeSpecies" species) (outputs_of t).

Definition count (p : Node -> bool) (l : list Node) : nat :=
  List.length (filter p l).

(** The origin that a pair of the inner emission loop stands for. *)
Definition origin_of (c : ModType * Str) : Origin * Str :=
  match fst c with
  | Position _ => (Reactant, snd c)
  | TypeTag t => (Modifier t, snd c)
  end.

(** The input elements of [l], numbered from [start]. *)
Definition numbered (species : Str) (start : nat)
           (l : list (ModType * Str)) : list Node :=
  map (fun p => input species (fst p) (fst (snd p)) (snd (snd p)))
      (combine (seq start (List.length l)) l).

End Spec.

Import Spec.

(* ================================================================= *)
(** ** Further vocabulary: what a run reads, keeps and writes *)

Module Further.

(** The value is a [str], not None. *)
Definition is_set (v : Str) : bool :=
  match v with
  | Some _ => true
  | None => false
  end.

(** No attribute of the element or of one of its descendants is None. *)
Fixpoint all_set (n : Node) : bool :=
  match n with
  | N _ items cs =>
      forallb (fun kv => is_set (snd kv)) items && forallb all_set cs
  end.

(** Every reactant and every modifier of the influence has its alias. *)
Definition influence_writable (r : Influence) : bool :=
  let '(_, reacs, mods) := r in
  forallb is_set reacs && forallb (fun m => is_set (snd m)) mods.

(** The values of a table item that end up as attributes are all there:
    the key, the four bounds, the name, and the aliases of the reactants
    and modifiers of its transitions. *)
Definition record_writable (kv : Str * SpeciesRecord) : bool :=
  is_set (fst kv)
  && is_set (x (snd kv)) && is_set (y (snd kv))
  && is_set (h (snd kv)) && is_set (w (snd kv))
  && is_set (name (snd kv))
  && forallb influence_writable (transitions (snd kv)).

Definition writable (info : SpeciesTable) : bool :=
  forallb record_writable info.

(** The record without what emission never reads: the activity, the
    class, the modifications and the type of each reaction. *)
Definition forget (data : SpeciesRecord) : SpeciesRecord :=
  {| activity := None;
     x := x data; y := y data; h := h data; w := w data;
     transitions :=
       map (fun r : Influence => (None, snd (fst r), snd r))
           (transitions data);
     name := name data;
     type := None;
     modifications := [] |}.

Definition view (info : SpeciesTable) : SpeciesTable :=
  map (fun kv => (fst kv, forget (snd kv))) info.

(** What transition extraction never changes in a table item. *)
Definition fixed_part (kv : Str * SpeciesRecord)
  : Str * (Str * Str * Str * Str * Str * Str * Str * list Str) :=
  (fst kv,
   (activity (snd kv), x (snd kv), y (snd kv), h (snd kv), w (snd kv),
    name (snd kv), type (snd kv), modifications (snd kv))).

(** The last of the aliases that has the id [k]. *)
Fixpoint latest (k : Str) (aliases : list Element) : option Element :=
  match aliases with
  | [] => None
  | a :: rest =>
      match latest k rest with
      | Some b => Some b
      | None => if Str_eqb (get "id" a) k then Some a else None
      end
  end.

(** The record that species extraction builds from one alias. *)
Definition entry_of (fq : string -> Element -> Exc (option Element))
           (model a : Element) : option SpeciesRecord :=
  match species_entry fq model a with
  | Ok kv => Some (snd kv)
  | Raise _ => None
  end.

(** The base products that a reaction element names. *)
Definition products_of (trans : Element) : list Str :=
  match read_reaction trans with
  | Ok (_, prods) => prods
  | Raise _ => []
  end.

(** The species glyphs of the emitted layout. *)
Definition emitted_glyphs (doc : Node) : list Node :=
  flat_map nchildren
    (filter (fun n => String.eqb (ntag n) "layout:listOfSpeciesGlyphs")
       (flat_map nchildren
          (filter (fun n => String.eqb (ntag n) "layout:layout")
                  (list_of "layout:listOfLayouts" doc)))).

(** The bounding box that a glyph holds for the given bounds. *)
Definition box (bx by_ bh bw : Str) : list Node :=
  [N "layout:position" [("layout:x", bx); ("layout:y", by_)] [];
   N "layout:dimensions" [("layout:height", bh); ("layout:width", bw)] []].

End Further.

Import Further.

(* ================================================================= *)
(** ** Further sample documents *)

Module Cases.

Import Sample.

(** A reaction element whose extension has no reactionType. *)
Definition untyped_reaction : Element :=
  el (in_sbml "reaction") []
     [el (in_sbml "annotation") [] [el (in_cd "extension") [] []]].

(** [m1] followed by a reaction that cannot be read. *)
Definition unreadable : Element :=
  model []
    [alias "speciesAlias" "sa1" "s1" [act; bounds]]
    [species_def [("id", "s1"); ("name", "A")] [class "PROTEIN"]]
    [reaction "STATE_TRANSITION" [] ["sa7"] []; untyped_reaction].

(** A placed alias without a species attribute, after one that
    resolves. *)
Definition no_reference : Element :=
  model []
    [alias "speciesAlias" "sa1" "s1" [act; bounds];
     el (in_cd "speciesAlias") [("id", "sa2"); ("compartmentAlias", "ca1")]
        [act; bounds]]
    [species_def [("id", "s1"); ("name", "A")] [class "PROTEIN"]]
    [].

(** An [sbml] root without a model. *)
Definition no_model : Element :=
  el (in_sbml "sbml") [("level", "2"); ("version", "4")] [].

(** No alias is placed; the reaction names two products. *)
Definition nothing_placed : Element :=
  model []
    [el (in_cd "speciesAlias") [("id", "sa4"); ("species", "s1")]
        [act; bounds]]
    [species_def [("id", "s1"); ("name", "A")] [class "PROTEIN"]]
    [reaction "STATE_TRANSITION" ["sa4"] ["sa4"; "sa5"] []].

(** A run with one argument too few. *)
Definition short_world : World :=
  {| argv := ["casq"; "in.xml"];
     parse := fun _ => Ok (document m1);
     can_open := fun _ => true |}.

(** [table_of m1] with other classes, activities, modifications and
    reaction types. *)
Definition relabelled : SpeciesTable :=
  map (fun kv : Str * SpeciesRecord =>
         (fst kv,
          {| activity := Some "active";
             x := x (snd kv); y := y (snd kv);
             h := h (snd kv); w := w (snd kv);
             transitions :=
               map (fun r : Influence =>
                      (Some "TRANSPORT", snd (fst r), snd r))
                   (transitions (snd kv));
             name := name (snd kv);
             type := Some "RNA";
             modifications := [Some "phosphorylated"] |}))
      (table_of m1).

End Cases.

(* ================================================================= *)
(** ** What the document says about a reaction *)

(** These definitions follow the wording of the specification and read
    the reaction element directly; the theorems compare them with what
    [get_transitions] stores and prints. *)
Module Reaction.

(** The CellDesigner extension of the reaction's annotation. *)
Definition extension_of (trans : Element) : option Element :=
  first (child_path [in_sbml "annotation"; in_cd "extension"] trans).

(** The element that holds the type tag of the reaction. *)
Definition type_element (trans : Element) : option Element :=
  match extension_of trans with
  | Some annot => first (child_path [in_cd "reactionType"] annot)
  | None => None
  end.

(** The reaction has an extension with a reaction type in it. *)
Definition well_formed (trans : Element) : bool :=
  match type_element trans with
  | Some _ => true
  | None => false
  end.

(** The type tag: the text of the reactionType element. *)
Definition reaction_type (trans : Element) : Str :=
  match type_element trans with
  | Some rt => text rt
  | None => None
  end.

(** The aliases of the base reactants, in document order. *)
Definition reactants (trans : Element) : list Str :=
  match extension_of trans with
  | Some annot =>
      map (get "alias")
          (child_path [in_cd "baseReactants"; in_cd "baseReactant"] annot)
  | None => []
  end.

(** The aliases of the base products, in document order. *)
Definition base_products (trans : Element) : list Str :=
  match extension_of trans with
  | Some annot =>
      map (get "alias")
          (child_path [in_cd "baseProducts"; in_cd "baseProduct"] annot)
  | None => []
  end.

(** The declared modifiers, each with its type tag and its alias. *)
Definition modifiers (trans : Element) : list (Str * Str) :=
  match extension_of trans with
  | Some annot =>
      map (fun m => (get "type" m, get "aliases" m))
          (child_path [in_cd "listOfModification"; in_cd "modification"]
                      annot)
  | None => []
  end.

(** The influence of the reaction: (type, reactants, modifiers). *)
Definition influence (trans : Element) : Influence :=
  (reaction_type trans, reactants trans, modifiers trans).

(** What the reaction contributes to [species]: its influence, once for
    each mention of [species] among its base products. *)
Definition contribution (species : Str) (trans : Element) : list Influence :=
  repeat (influence trans) (occurrences species (base_products trans)).

(** The lines the reaction causes for a table with the given keys: one
    for each mention of a base product that is no key. *)
Definition reports (known : list Str) (trans : Element) : list string :=
  map (fun p => ("ignoring unknown species " ++ fmt p)%string)
      (filter (fun p => negb (existsb (Str_eqb p) known))
              (base_products trans)).

End Reaction.

Import Reaction.

(* ================================================================= *)
(** ** The model at the sample documents *)

Example m1_keys :
  option_map (@keys SpeciesRecord)
             (match species_info Sample.no_quoted Sample.m1 with
              | Ok info => Some info
              | Raise _ => None
              end)
  = Some [Some "sa1"; Some "sa2"].
Proof. reflexivity. Qed.

Example m1_stdout :
  stdout (main Sample.no_quoted (Sample.world (Sample.document Sample.m1)))
  = [("parsing in.xml" ++ ellipsis)%string; "ignoring unknown species sa9"].
Proof. reflexivity. Qed.

(** The type of the reaction itself plays no part in the sign: the
    reactant of the INHIBITION reaction of [scenario] is a positive
    input. *)
Example scenario_inputs :
  map (fun kv => inputs_of (transition (fst kv) (snd kv)))
      (Sample.table_of Sample.scenario)
  = [ [];
      [N "qual:input"
         [("qual:qualitativeSpecies", Some "sa1");
          ("qual:transitionEffect", Some "none");
          ("qual:sign", Some "positive");
          ("qual:id", Some "tr_sa2_in_0")] []] ].
Proof. reflexivity. Qed.

(** Two aliases with one id leave one record, at the place of the first
    and with the content of the second. *)
Example shared_id_table :
  map (fun kv => (fst kv, name (snd kv), type (snd kv)))
      (Sample.table_of Sample.shared_id)
  = [(Some "sa1", Some "B", Some "GENE")].
Proof. reflexivity. Qed.

(** A product named twice receives the influence twice. *)
Example product_twice_table :
  map (fun kv => (fst kv, transitions (snd kv)))
      (Sample.table_of Sample.product_twice)
  = [(Some "sa1",
      [(Some "STATE_TRANSITION", [], []);
       (Some "STATE_TRANSITION", [], [])])].
Proof. reflexivity. Qed.

Example get_mods_states :
  get_mods (Some (Sample.modifications_list ["phosphorylated"; "acetylated"]))
  = [Some "phosphorylated"; Some "acetylated"]
  /\ get_mods (Some (Sample.modifications_list [])) = []
  /\ get_mods None = [].
Proof. repeat split. Qed.

Example escape_attrib_markup :
  escape_attrib "a<b&c" = "a&lt;b&amp;c"
  /\ escape_attrib quot = "&quot;".
Proof. split; reflexivity. Qed.

Example fmt_int_decimal : fmt_int 0 = "0" /\ fmt_int 12 = "12".
Proof. split; reflexivity. Qed.

(* ================================================================= *)
(** ** Facts about the runtime model *)

Lemma Str_eqb_eq (a b : Str) : Str_eqb a b = true <-> a = b.
Proof.
  destruct a as [s|], b as [t|]; simpl; split; intro H;
    try discriminate; try reflexivity.
  - apply String.eqb_eq in H. congruence.
  - apply String.eqb_eq. congruence.
Qed.

Lemma Str_eqb_refl (a : Str) : Str_eqb a a = true.
Proof. apply Str_eqb_eq. reflexivity. Qed.

Lemma Str_eqb_neq (a b : Str) : Str_eqb a b = false <-> a <> b.
Proof.
  split.
  - intros H E. apply Str_eqb_eq in E. congruence.
  - intro H. destruct (Str_eqb a b) eqn:E; [|reflexivity].
    apply Str_eqb_eq in E. contradiction.
Qed.

Lemma Str_eqb_sym (a b : Str) : Str_eqb a b = Str_eqb b a.
Proof.
  destruct (Str_eqb b a) eqn:E.
  - apply Str_eqb_eq in E. subst. apply Str_eqb_refl.
  - apply Str_eqb_neq in E. apply Str_eqb_neq. congruence.
Qed.

Ltac str_cases a b :=
  let E := fresh "E" in
  destruct (Str_eqb a b) eqn:E;
  [apply Str_eqb_eq in E | apply Str_eqb_neq in E].

(* ================================================================= *)
(** ** Emission: the inputs of a transition *)

Lemma numbered_app species start l1 l2 :
  numbered species start (l1 ++ l2)
  = numbered species start l1
    ++ numbered species (start + List.length l1) l2.
Proof.
  revert start. induction l1 as [|c l1 IH]; intro start; simpl.
  - rewrite Nat.add_0_r. reflexivity.
  - unfold numbered in *. simpl. f_equal.
    rewrite (IH (S start)). simpl.
    rewrite Nat.add_succ_r. reflexivity.
Qed.

Lemma modifier_loop_spec species l ilist index :
  modifier_loop species l ilist index
  = (ilist ++ numbered species index l, index + List.length l).
Proof.
  revert ilist index. induction l as [|[modtype modifier] l IH];
    intros ilist index; simpl.
  - rewrite app_nil_r, Nat.add_0_r. reflexivity.
  - rewrite IH. rewrite <- app_assoc. simpl.
    unfold numbered. simpl.
    replace (index + 1) with (S index) by lia.
    f_equal. lia.
Qed.

Lemma input_loop_spec species reactions ilist index :
  input_loop species reactions ilist index
  = (ilist ++ numbered species index (flat_map chain_modifiers reactions),
     index + List.length (flat_map chain_modifiers reactions)).
Proof.
  revert ilist index. induction reactions as [|r rs IH];
    intros ilist index; simpl.
  - unfold numbered. simpl. rewrite app_nil_r, Nat.add_0_r. reflexivity.
  - rewrite modifier_loop_spec. rewrite IH.
    rewrite numbered_app, <- app_assoc, length_app.
    f_equal. lia.
Qed.

Lemma inputs_of_transition species data :
  inputs_of (transition species data)
  = numbered species 0 (flat_map chain_modifiers (transitions data)).
Proof.
  unfold inputs_of, part, transition. simpl.
  rewrite app_nil_r. rewrite input_loop_spec. reflexivity.
Qed.

Lemma origin_of_chain (r : Influence) :
  map origin_of (chain_modifiers r) = contributors r.
Proof.
  destruct r as [[rtype reacs] mods]. unfold chain_modifiers, contributors.
  rewrite map_app, !map_map. f_equal.
  unfold enumerate. generalize 0.
  induction reacs as [|a reacs IH]; intro n; simpl.
  - reflexivity.
  - rewrite IH. reflexivity.
Qed.

Lemma origin_of_flat (rs : list Influence) :
  map origin_of (flat_map chain_modifiers rs) = flat_map contributors rs.
Proof.
  induction rs as [|r rs IH]; simpl.
  - reflexivity.
  - rewrite map_app, origin_of_chain, IH. reflexivity.
Qed.

Lemma Forall2_numbered (P : Node -> Origin * Str -> Prop) species :
  (forall index c, P (input species index (fst c) (snd c)) (origin_of c)) ->
  forall l start, Forall2 P (numbered species start l) (map origin_of l).
Proof.
  intros HP l. induction l as [|c l IH]; intro start.
  - constructor.
  - unfold numbered in *. simpl. constructor.
    + apply HP.
    + apply IH.
Qed.

Lemma numbered_ids species l start :
  map (nget "qual:id") (numbered species start l)
  = map (fun k => Some (Some (input_id species k)))
        (seq start (List.length l)).
Proof.
  revert start. induction l as [|c l IH]; intro start.
  - reflexivity.
  - unfold numbered in *. simpl. f_equal. apply IH.
Qed.

Lemma numbered_refs species l start :
  map (nget "qual:qualitativeSpecies") (numbered species start l)
  = map (fun c => Some (snd c)) (map origin_of l).
Proof.
  revert start. induction l as [|c l IH]; intro start.
  - reflexivity.
  - unfold numbered in *. simpl. f_equal.
    + unfold origin_of. destruct (fst c); reflexivity.
    + apply IH.
Qed.

(** C1. Every emitted input corresponds, position by position, to one
    contributing alias of the species' influences; it refers to that
    alias, and its sign is "negative" exactly when the alias is a declared
    modifier whose type tag is the string "INHIBITION".  Every other
    input, and so every input that comes from a base reactant, has sign
    "positive". *)
Theorem input_sign_rule (species : Str) (data : SpeciesRecord) :
  Forall2
    (fun i c =>
       nget "qual:qualitativeSpecies" i = Some (snd c)
       /\ (nget "qual:sign" i = Some (Some "negative")
           <-> fst c = Modifier (Some "INHIBITION"))
       /\ (fst c <> Modifier (Some "INHIBITION")
           -> nget "qual:sign" i = Some (Some "positive"))
       /\ (fst c = Reactant -> nget "qual:sign" i = Some (Some "positive")))
    (inputs_of (transition species data))
    (flat_map contributors (transitions data)).
Proof.
  rewrite inputs_of_transition, <- origin_of_flat.
  apply Forall2_numbered. intros index [modtype modifier].
  unfold origin_of, input, nget. simpl.
  destruct modtype as [j|t]; simpl.
  - repeat split; try discriminate; reflexivity.
  - unfold sign_of. simpl. str_cases t (Some "INHIBITION").
    + subst t. repeat split; try discriminate; try reflexivity.
      intro H. contradiction H. reflexivity.
    + repeat split; try discriminate; try reflexivity.
      intro H. inversion H. contradiction.
Qed.

(* ================================================================= *)
(** ** Dictionaries and records *)

Section DictFacts.
Variable V : Type.
Implicit Types (d : dict V) (k : Str).

Lemma keys_update k (f : V -> V) d : keys (dict_update k f d) = keys d.
Proof.
  induction d as [|[k' v'] d IH]; simpl.
  - reflexivity.
  - destruct (Str_eqb k k'); simpl; [reflexivity|].
    f_equal. exact IH.
Qed.

Lemma dict_get_update k k' (f : V -> V) d :
  dict_get k (dict_update k' f d)
  = if Str_eqb k k' then option_map f (dict_get k d) else dict_get k d.
Proof.
  induction d as [|[k0 v0] d IH]; simpl.
  - destruct (Str_eqb k k'); reflexivity.
  - str_cases k' k0; simpl.
    + subst k0. destruct (Str_eqb k k'); reflexivity.
    + str_cases k k0.
      * subst k0. rewrite (proj2 (Str_eqb_neq k k')) by congruence.
        reflexivity.
      * apply IH.
Qed.

Lemma dict_mem_update k k' (f : V -> V) d :
  dict_mem k (dict_update k' f d) = dict_mem k d.
Proof.
  unfold dict_mem. rewrite dict_get_update.
  destruct (Str_eqb k k'), (dict_get k d); reflexivity.
Qed.

Lemma dict_get_In_keys k d :
  (exists v, dict_get k d = Some v) <-> In k (keys d).
Proof.
  induction d as [|[k' v'] d IH]; simpl.
  - split; [intros [v H]; discriminate | intros []].
  - str_cases k k'.
    + subst k'. split; [auto | intros _; eauto].
    + rewrite IH. split; [auto | intros [H|H]; [congruence|assumption]].
Qed.

Lemma dict_mem_In_keys k d : dict_mem k d = true <-> In k (keys d).
Proof.
  rewrite <- dict_get_In_keys. unfold dict_mem.
  destruct (dict_get k d); split; intro H;
    try reflexivity; try discriminate; eauto.
  destruct H as [v H]. discriminate.
Qed.

Lemma dict_get_In k v d : dict_get k d = Some v -> In (k, v) d.
Proof.
  induction d as [|[k' v'] d IH]; simpl; [discriminate|].
  str_cases k k'.
  - intro H. inversion H. subst. left. reflexivity.
  - auto.
Qed.

Lemma In_dict_get k v d : NoDup (keys d) -> In (k, v) d -> dict_get k d = Some v.
Proof.
  induction d as [|[k' v'] d IH]; simpl; [intros _ []|].
  intros ND [H|H].
  - inversion H. subst. rewrite Str_eqb_refl. reflexivity.
  - inversion ND as [|? ? Hn ND']. subst.
    str_cases k k'.
    + subst k'. exfalso. apply Hn. apply (in_map fst) in H. exact H.
    + auto.
Qed.

Lemma count_key k v d :
  NoDup (keys d) -> In (k, v) d ->
  List.length (filter (fun kv => Str_eqb (fst kv) k) d) = 1.
Proof.
  induction d as [|[k' v'] d IH]; simpl; [intros _ []|].
  intros ND H. inversion ND as [|? ? Hn ND']. subst.
  destruct H as [H|H].
  - inversion H. subst. rewrite Str_eqb_refl. simpl. f_equal.
    assert (E : filter (fun kv : Str * V => Str_eqb (fst kv) k) d = []).
    { clear IH ND ND' H. induction d as [|[k1 v1] d IHd]; simpl; [reflexivity|].
      simpl in Hn. str_cases k1 k.
      - exfalso. apply Hn. left. assumption.
      - apply IHd. intro. apply Hn. right. assumption. }
    rewrite E. reflexivity.
  - str_cases k' k.
    + subst k'. exfalso. apply Hn. apply (in_map fst) in H. exact H.
    + auto.
Qed.
End DictFacts.

Lemma extend_nil data : extend [] data = data.
Proof. destruct data. unfold extend. simpl. rewrite app_nil_r. reflexivity. Qed.

Lemma extend_extend rs1 rs2 data :
  extend rs2 (extend rs1 data) = extend (rs1 ++ rs2) data.
Proof. unfold extend. simpl. rewrite app_assoc. reflexivity. Qed.

Lemma option_map_extend_nil (o : option SpeciesRecord) :
  option_map (extend []) o = o.
Proof. destruct o; simpl; [rewrite extend_nil|]; reflexivity. Qed.

Lemma option_map_extend rs1 rs2 (o : option SpeciesRecord) :
  option_map (extend rs2) (option_map (extend rs1) o)
  = option_map (extend (rs1 ++ rs2)) o.
Proof. destruct o; simpl; [rewrite extend_extend|]; reflexivity. Qed.

(* ================================================================= *)
(** ** Transition extraction *)

Lemma occurrences_cons species p l :
  occurrences species (p :: l)
  = (if Str_eqb species p then 1 else 0) + occurrences species l.
Proof. unfold occurrences. simpl. destruct (Str_eqb species p); reflexivity. Qed.

Lemma occurrences_pos species l : 0 < occurrences species l <-> In species l.
Proof.
  induction l as [|p l IH]; simpl.
  - unfold occurrences. simpl. split; [lia | intros []].
  - rewrite occurrences_cons. str_cases species p.
    + subst. split; [auto | lia].
    + simpl. rewrite IH. split; [auto | intros [H|H]; [congruence|assumption]].
Qed.

Lemma product_loop_spec r prods info out :
  let result := product_loop r prods info out in
  keys (fst result) = keys info
  /\ (forall species,
        dict_get species (fst result)
        = option_map (extend (repeat r (occurrences species prods)))
                     (dict_get species info))
  /\ snd result
     = out ++ map diagnostic (filter (fun p => negb (dict_mem p info)) prods).
Proof.
  revert info out. induction prods as [|p prods IH]; intros info out; simpl.
  - repeat split.
    + intro species. unfold occurrences. simpl.
      rewrite option_map_extend_nil. reflexivity.
    + rewrite app_nil_r. reflexivity.
  - destruct (dict_mem p info) eqn:M; simpl.
    + destruct (IH (dict_update p (append_transition r) info) out)
        as (K & G & O).
      repeat split.
      * rewrite K. apply keys_update.
      * intro species. rewrite G, dict_get_update, occurrences_cons.
        destruct (Str_eqb species p); simpl.
        -- unfold append_transition. rewrite option_map_extend. reflexivity.
        -- reflexivity.
      * rewrite O. f_equal. f_equal. apply filter_ext.
        intro a. rewrite dict_mem_update. reflexivity.
    + destruct (IH info (out ++ [diagnostic p])) as (K & G & O).
      repeat split.
      * exact K.
      * intro species. rewrite G, occurrences_cons.
        str_cases species p; [|reflexivity].
        subst p. unfold dict_mem in M.
        destruct (dict_get species info); [discriminate|reflexivity].
      * rewrite O, <- app_assoc. reflexivity.
Qed.

Lemma dict_mem_same_keys (d d' : SpeciesTable) p :
  keys d' = keys d -> dict_mem p d' = dict_mem p d.
Proof.
  intro K. destruct (dict_mem p d) eqn:M.
  - apply dict_mem_In_keys. rewrite K. apply dict_mem_In_keys. exact M.
  - destruct (dict_mem p d') eqn:M'; [|reflexivity].
    apply dict_mem_In_keys in M'. rewrite K in M'.
    apply dict_mem_In_keys in M'. congruence.
Qed.

Lemma unknown_products_same_keys (d d' : SpeciesTable) trans :
  keys d' = keys d -> unknown_products d' trans = unknown_products d trans.
Proof.
  intro K. unfold unknown_products.
  destruct (read_reaction trans) as [[r prods]|e]; [|reflexivity].
  f_equal. apply filter_ext. intro p.
  rewrite (dict_mem_same_keys _ _ _ K). reflexivity.
Qed.

Lemma reaction_loop_spec reactions :
  Forall readable reactions ->
  forall info out,
  exists info',
    reaction_loop reactions info out
    = (Ok info', out ++ flat_map (unknown_products info) reactions)
    /\ keys info' = keys info
    /\ forall species,
        dict_get species info'
        = option_map (extend (flat_map (influence_on species) reactions))
                     (dict_get species info).
Proof.
  induction 1 as [|trans reactions [[r prods] R] _ IH]; intros info out; simpl.
  - exists info. rewrite app_nil_r. repeat split.
    intro species. rewrite option_map_extend_nil. reflexivity.
  - rewrite R.
    destruct (product_loop_spec r prods info out) as (K & G & O).
    destruct (product_loop r prods info out) as [info1 out1]. simpl in *.
    destruct (IH info1 out1) as (info' & E & K' & G').
    exists info'. repeat split.
    + rewrite E, O. f_equal. rewrite <- app_assoc. f_equal.
      unfold unknown_products at 2. rewrite R. f_equal.
      apply flat_map_ext. intro a.
      apply unknown_products_same_keys. exact K.
    + congruence.
    + intro species. rewrite G', G, option_map_extend.
      unfold influence_on at 2. rewrite R. reflexivity.
Qed.

(* ================================================================= *)
(** ** Emission: one species element and one transition per record *)

Lemma emitted_species_tree info :
  emitted_species (qual_tree info)
  = map (fun kv => qualitativeSpecies (fst kv) (snd kv)) info.
Proof.
  unfold emitted_species, list_of, model_of, qual_tree. simpl.
  rewrite !app_nil_r. reflexivity.
Qed.

Lemma emitted_transitions_tree info :
  emitted_transitions (qual_tree info) = add_transitions info.
Proof.
  unfold emitted_transitions, list_of, model_of, qual_tree. simpl.
  rewrite !app_nil_r. reflexivity.
Qed.

Lemma count_map (A : Type) (f : A -> Node) (p : Node -> bool) (l : list A) :
  count p (map f l) = List.length (filter (fun a => p (f a)) l).
Proof.
  unfold count. induction l as [|a l IH]; simpl; [reflexivity|].
  destruct (p (f a)); simpl; rewrite IH; reflexivity.
Qed.

Lemma has_value_species species k data :
  has_value "qual:id" k (qualitativeSpecies species data) = Str_eqb species k.
Proof. reflexivity. Qed.

Lemma assigns_transition species k data :
  assigns k (transition species data) = Str_eqb species k.
Proof. unfold assigns, outputs_of, part, has_value. simpl. apply orb_false_r. Qed.

(** C4. For a table whose keys are distinct, the emitted document has,
    for every record, exactly one qualitative-species element with the
    record's id and exactly one transition whose output refers to it, and
    as many elements of either kind as there are records.  Every emitted
    transition has exactly one output, with effect "assignmentLevel" and
    referring to a key of the table, and exactly one function term, the
    default term with result level 0; the transition of a record with no
    transitions has no inputs. *)
Theorem every_species_emitted_once (info : SpeciesTable) :
  NoDup (keys info) ->
  (forall species data,
      In (species, data) info ->
      count (has_value "qual:id" species) (emitted_species (qual_tree info))
      = 1
      /\ count (assigns species) (emitted_transitions (qual_tree info)) = 1
      /\ exists t,
          In t (emitted_transitions (qual_tree info))
          /\ assigns species t = true
          /\ (transitions data = [] -> inputs_of t = []))
  /\ List.length (emitted_species (qual_tree info)) = List.length info
  /\ List.length (emitted_transitions (qual_tree info)) = List.length info
  /\ (forall t,
        In t (emitted_transitions (qual_tree info)) ->
        exists o d species,
          outputs_of t = [o]
          /\ nget "qual:transitionEffect" o = Some (Some "assignmentLevel")
          /\ nget "qual:qualitativeSpecies" o = Some species
          /\ In species (keys info)
          /\ assigns species t = true
          /\ terms_of t = [d]
          /\ ntag d = "qual:defaultTerm"
          /\ nget "qual:resultLevel" d = Some (Some "0")).
Proof.
  intro ND. rewrite emitted_species_tree, emitted_transitions_tree.
  unfold add_transitions. repeat split.
  - rewrite count_map.
    erewrite filter_ext; [eapply count_key; eassumption|].
    intros [k v]. apply has_value_species.
  - rewrite count_map.
    erewrite filter_ext; [eapply count_key; eassumption|].
    intros [k v]. apply assigns_transition.
  - exists (transition species data). repeat split.
    + apply (in_map (fun kv => transition (fst kv) (snd kv)) _ _ H).
    + rewrite assigns_transition. apply Str_eqb_refl.
    + intro T. rewrite inputs_of_transition, T. reflexivity.
  - apply length_map.
  - apply length_map.
  - intros t I. apply in_map_iff in I. destruct I as ([k v] & <- & I).
    exists (output k), defaultTerm, k. simpl. repeat split.
    + apply (in_map fst) in I. exact I.
    + rewrite assigns_transition. apply Str_eqb_refl.
Qed.

(* ================================================================= *)
(** ** Species extraction *)

Section SetFacts.
Variable V : Type.
Implicit Types (d : dict V) (k : Str).

Lemma existsb_keys k (l : list Str) :
  existsb (Str_eqb k) l = true <-> In k l.
Proof.
  rewrite existsb_exists. split.
  - intros (k' & I & E). apply Str_eqb_eq in E. subst. exact I.
  - intro I. exists k. split; [exact I | apply Str_eqb_refl].
Qed.

Lemma keys_set k (v : V) d :
  keys (dict_set k v d)
  = if existsb (Str_eqb k) (keys d) then keys d else keys d ++ [k].
Proof.
  induction d as [|[k' v'] d IH]; simpl.
  - reflexivity.
  - destruct (Str_eqb k k'); simpl; [reflexivity|].
    unfold keys in *. rewrite IH.
    destruct (existsb (Str_eqb k) (map fst d)); reflexivity.
Qed.

Lemma In_dict_set k (v : V) d k0 v0 :
  In (k0, v0) (dict_set k v d) -> (k0 = k /\ v0 = v) \/ In (k0, v0) d.
Proof.
  induction d as [|[k' v'] d IH]; simpl.
  - intros [H|[]]. inversion H. auto.
  - str_cases k k'; simpl.
    + subst k'. intros [H|H]; [inversion H|]; auto.
    + intros [H|H]; [auto|]. destruct (IH H); auto.
Qed.

Lemma dict_set_fresh k (v : V) d :
  ~ In k (keys d) -> dict_set k v d = d ++ [(k, v)].
Proof.
  induction d as [|[k' v'] d IH]; simpl; intro NI.
  - reflexivity.
  - str_cases k k'.
    + exfalso. apply NI. left. congruence.
    + rewrite IH; [reflexivity|]. intro. apply NI. right. assumption.
Qed.
End SetFacts.

Lemma first_occurrences_fresh seen l :
  NoDup (seen ++ l) -> first_occurrences seen l = l.
Proof.
  revert seen. induction l as [|k l IH]; intros seen ND; simpl.
  - reflexivity.
  - destruct (existsb (Str_eqb k) seen) eqn:E.
    + apply existsb_keys in E. apply NoDup_remove_2 in ND.
      exfalso. apply ND. apply in_or_app. left. exact E.
    + f_equal. apply IH. rewrite <- app_assoc. exact ND.
Qed.

Lemma first_occurrences_NoDup seen l :
  NoDup seen -> NoDup (seen ++ first_occurrences seen l).
Proof.
  revert seen. induction l as [|k l IH]; intros seen ND; simpl.
  - rewrite app_nil_r. exact ND.
  - destruct (existsb (Str_eqb k) seen) eqn:E.
    + apply IH. exact ND.
    + change (k :: first_occurrences (seen ++ [k]) l)
        with ([k] ++ first_occurrences (seen ++ [k]) l).
      rewrite app_assoc. apply IH.
      apply NoDup_app.
      * exact ND.
      * constructor; [intros []|constructor].
      * intros a Ia [Ea|[]]. subst a.
        apply existsb_keys in Ia. congruence.
Qed.

Lemma first_occurrences_In seen l k :
  In k (seen ++ first_occurrences seen l) <-> In k seen \/ In k l.
Proof.
  revert seen. induction l as [|k' l IH]; intro seen; simpl.
  - rewrite app_nil_r. tauto.
  - destruct (existsb (Str_eqb k') seen) eqn:E.
    + rewrite IH. apply existsb_keys in E.
      split; [tauto|]. intros [H|[H|H]]; subst; auto.
    + change (k' :: first_occurrences (seen ++ [k']) l)
        with ([k'] ++ first_occurrences (seen ++ [k']) l).
      rewrite app_assoc, IH, in_app_iff. simpl. tauto.
Qed.

Lemma species_entry_key fq model a kv :
  species_entry fq model a = Ok kv -> fst kv = get "id" a.
Proof.
  unfold species_entry, bind.
  destruct (deref (find_descendant (in_cd "activity") a)); [|discriminate].
  destruct (find_species fq model (get "species" a)) as [found|];
    [|discriminate].
  destruct (deref found) as [s|]; [|discriminate].
  destruct (deref (first (child_path [in_sbml "annotation"] s)));
    [|discriminate].
  destruct (deref (find_descendant (in_cd "bounds") a)); [|discriminate].
  intro H. inversion H. reflexivity.
Qed.

Lemma species_entry_inv fq model a k data :
  species_entry fq model a = Ok (k, data) ->
  exists act b s annot,
    find_descendant (in_cd "activity") a = Some act
    /\ find_descendant (in_cd "bounds") a = Some b
    /\ find_species fq model (get "species" a) = Ok (Some s)
    /\ first (child_path [in_sbml "annotation"] s) = Some annot
    /\ k = get "id" a
    /\ data
       = {| activity := text act;
            x := get "x" b; y := get "y" b;
            h := get "h" b; w := get "w" b;
            transitions := [];
            name := get "name" s;
            type := get_class (find_descendant (in_cd "class") annot);
            modifications :=
              get_mods
                (find_descendant (in_cd "listOfModifications") annot) |}.
Proof.
  unfold species_entry, bind, deref.
  destruct (find_descendant (in_cd "activity") a) as [act|] eqn:EA;
    [|discriminate].
  destruct (find_species fq model (get "species" a)) as [[s|]|] eqn:ES;
    try discriminate.
  destruct (first (child_path [in_sbml "annotation"] s)) as [annot|] eqn:EN;
    [|discriminate].
  destruct (find_descendant (in_cd "bounds") a) as [b|] eqn:EB;
    [|discriminate].
  intro H. inversion H. exists act, b, s, annot. repeat split; assumption.
Qed.

Lemma species_entry_resolvable fq model a :
  resolvable model a = true ->
  exists act b s annot,
    find_descendant (in_cd "activity") a = Some act
    /\ find_descendant (in_cd "bounds") a = Some b
    /\ definition_of model a = Some s
    /\ annotation_of model a = Some annot
    /\ species_entry fq model a
       = Ok (get "id" a,
             {| activity := text act;
                x := get "x" b; y := get "y" b;
                h := get "h" b; w := get "w" b;
                transitions := [];
                name := get "name" s;
                type := get_class (find_descendant (in_cd "class") annot);
                modifications :=
                  get_mods
                    (find_descendant (in_cd "listOfModifications") annot) |}).
Proof.
  unfold resolvable, annotation_of, definition_of, species_entry, find_species.
  destruct (find_descendant (in_cd "activity") a) as [act|]; [|discriminate].
  destruct (find_descendant (in_cd "bounds") a) as [b|]; [|discriminate].
  destruct (get "species" a) as [ref|]; [|discriminate].
  destruct (first (attr_is "id" ref _)) as [s|]; [|discriminate].
  destruct (first (child_path [in_sbml "annotation"] s)) as [annot|] eqn:A;
    [|discriminate].
  intro Q. apply negb_true_iff in Q. rewrite Q.
  exists act, b, s, annot. repeat split.
  cbv [bind deref]. rewrite A. reflexivity.
Qed.

Lemma species_loop_total fq model aliases :
  Forall (fun a => resolvable model a = true) aliases ->
  forall acc, exists info, species_loop fq model aliases acc = Ok info.
Proof.
  induction 1 as [|a aliases R _ IH]; intro acc; simpl.
  - eauto.
  - destruct (species_entry_resolvable fq model a R)
      as (act & b & s & annot & _ & _ & _ & _ & E).
    rewrite E. simpl. apply IH.
Qed.

Lemma species_loop_keys fq model aliases :
  forall acc info,
    species_loop fq model aliases acc = Ok info ->
    keys info
    = keys acc ++ first_occurrences (keys acc) (map (get "id") aliases).
Proof.
  induction aliases as [|a aliases IH]; intros acc info; simpl.
  - intro H. inversion H. rewrite app_nil_r. reflexivity.
  - destruct (species_entry fq model a) as [kv|] eqn:E; simpl; [|discriminate].
    intro H. apply IH in H. rewrite H, keys_set.
    rewrite (species_entry_key _ _ _ E).
    destruct (existsb (Str_eqb (get "id" a)) (keys acc)).
    + reflexivity.
    + rewrite <- app_assoc. reflexivity.
Qed.

Lemma species_loop_values fq model aliases :
  forall acc info,
    species_loop fq model aliases acc = Ok info ->
    forall k data,
      In (k, data) info ->
      In (k, data) acc
      \/ exists a, In a aliases /\ species_entry fq model a = Ok (k, data).
Proof.
  induction aliases as [|a aliases IH]; intros acc info; simpl.
  - intro H. inversion H. auto.
  - destruct (species_entry fq model a) as [[k0 v0]|] eqn:E; simpl;
      [|discriminate].
    intros H k data I. destruct (IH _ _ H _ _ I) as [I'|(a' & Ia & Ea)].
    + apply In_dict_set in I'. destruct I' as [[-> ->]|I']; [|auto].
      right. exists a. auto.
    + right. exists a'. auto.
Qed.

Lemma species_loop_distinct fq model aliases :
  forall acc info,
    species_loop fq model aliases acc = Ok info ->
    NoDup (keys acc ++ map (get "id") aliases) ->
    exists entries,
      info = acc ++ entries
      /\ Forall2 (fun kv a => species_entry fq model a = Ok kv)
                 entries aliases.
Proof.
  induction aliases as [|a aliases IH]; intros acc info; simpl.
  - intros H _. inversion H. exists []. rewrite app_nil_r. auto.
  - destruct (species_entry fq model a) as [kv|] eqn:E; simpl; [|discriminate].
    intros H ND.
    assert (F : ~ In (fst kv) (keys acc)).
    { rewrite (species_entry_key _ _ _ E).
      apply NoDup_remove_2 in ND. intro I. apply ND.
      apply in_or_app. left. exact I. }
    rewrite dict_set_fresh in H by exact F.
    destruct (IH _ _ H) as (entries & -> & F2).
    + unfold keys. rewrite map_app. simpl. rewrite <- app_assoc. simpl.
      rewrite (species_entry_key _ _ _ E). exact ND.
    + exists (kv :: entries). rewrite <- app_assoc. split.
      * destruct kv. reflexivity.
      * constructor; [exact E | exact F2].
Qed.

Lemma placed_aliases_spec model a :
  In a (placed_aliases model)
  <-> In a (all_aliases model)
      /\ exists c, get "compartmentAlias" a = Some c.
Proof.
  unfold placed_aliases, all_aliases, complex_aliases, simple_aliases, has_attr.
  rewrite !in_app_iff, !filter_In.
  destruct (get "compartmentAlias" a) as [c|].
  - split; [intros [[I _]|[I _]]; eauto | intros [[I|I] _]; auto].
  - split; [intros [[_ F]|[_ F]]; discriminate | intros [_ [c F]]; discriminate].
Qed.


(** C2. Species extraction returns a table whenever every placed alias
    (one that declares a compartment association) can be resolved.  For
    every table it returns: the placed aliases are exactly the complex and
    simple alias elements that carry the compartment attribute, so an
    alias without a compartment association is not processed; the keys of
    the table are the ids of the placed aliases, each once, in document
    order with the complex aliases first; every record is the one built
    from a placed alias with that id; and when the ids are distinct the
    table has exactly one record per placed alias, in that order. *)
Theorem species_table_covers_placed_aliases
        (fq : string -> Element -> Exc (option Element)) (model : Element) :
  (Forall (fun a => resolvable model a = true) (placed_aliases model) ->
   exists info, species_info fq model = Ok info)
  /\ forall info,
      species_info fq model = Ok info ->
      (forall a,
          In a (placed_aliases model)
          <-> In a (all_aliases model)
              /\ exists c, get "compartmentAlias" a = Some c)
      /\ keys info
         = first_occurrences [] (map (get "id") (placed_aliases model))
      /\ NoDup (keys info)
      /\ (forall k,
            In k (keys info)
            <-> exists a, In a (placed_aliases model) /\ get "id" a = k)
      /\ (forall k data,
            In (k, data) info ->
            exists a,
              In a (placed_aliases model)
              /\ species_entry fq model a = Ok (k, data))
      /\ (NoDup (map (get "id") (placed_aliases model)) ->
          List.length info = List.length (placed_aliases model)
          /\ Forall2 (fun kv a => species_entry fq model a = Ok kv)
                     info (placed_aliases model)).
Proof.
  split.
  { intro R. apply (@species_loop_total fq model _ R []). }
  intros info E.
  unfold species_info in E. fold (placed_aliases model) in E.
  pose proof (@species_loop_keys _ _ _ _ _ E) as K. simpl in K.
  split; [apply placed_aliases_spec|].
  split; [exact K|].
  split; [rewrite K; apply (@first_occurrences_NoDup [] _); constructor|].
  split; [|split].
  - intro k. rewrite K. split.
    + intro I. apply (first_occurrences_In [] _ k) in I.
      destruct I as [[]|I].
      apply in_map_iff in I. destruct I as (a & Ea & Ia). eauto.
    + intros (a & Ia & Ea).
      apply (first_occurrences_In [] _ k). right. subst k.
      apply in_map. exact Ia.
  - intros k data I.
    destruct (@species_loop_values _ _ _ _ _ E _ _ I) as [[]|H]. exact H.
  - intro H.
    destruct (@species_loop_distinct _ _ _ _ _ E H) as (entries & -> & F).
    split; [|exact F]. simpl. apply Forall2_length in F. exact F.
Qed.

Lemma species_loop_raises fq model a e aliases :
  In a aliases ->
  species_entry fq model a = Raise e ->
  forall acc, exists e', species_loop fq model aliases acc = Raise e'.
Proof.
  intros I E. induction aliases as [|a' aliases IH]; [destruct I|].
  intro acc. simpl. destruct (species_entry fq model a') as [kv|e'] eqn:E'.
  - simpl. destruct I as [->|I]; [congruence|]. apply IH. exact I.
  - simpl. eauto.
Qed.

(** C9. Species extraction raises an exception whenever some placed
    alias has no activity element, or no bounds element, or refers (by a
    reference free of double quotes) to a species definition that is
    absent or has no annotation: none of these lookups is guarded. *)
Theorem unguarded_lookups_raise
        (fq : string -> Element -> Exc (option Element))
        (model a : Element) :
  In a (placed_aliases model) ->
  find_descendant (in_cd "activity") a = None
  \/ find_descendant (in_cd "bounds") a = None
  \/ (exists ref,
         get "species" a = Some ref /\ has_dquote ref = false
         /\ (definition_of model a = None \/ annotation_of model a = None)) ->
  exists e, species_info fq model = Raise e.
Proof.
  intros I H.
  assert (E : exists e, species_entry fq model a = Raise e).
  { unfold species_entry. destruct H as [H|[H|(ref & G & Q & H)]].
    - rewrite H. simpl. eauto.
    - rewrite H.
      destruct (deref (find_descendant (in_cd "activity") a)); simpl; eauto.
      destruct (find_species fq model (get "species" a)) as [found|];
        simpl; eauto.
      destruct (deref found) as [s|]; simpl; eauto.
      destruct (deref (first (child_path [in_sbml "annotation"] s)));
        simpl; eauto.
    - destruct (deref (find_descendant (in_cd "activity") a)); simpl; eauto.
      unfold annotation_of, definition_of in H. unfold find_species.
      rewrite G in *. rewrite Q.
      destruct (first (attr_is "id" ref _)) as [s|]; simpl; eauto.
      destruct H as [H|H]; [discriminate|]. rewrite H. simpl. eauto. }
  destruct E as [e E]. unfold species_info.
  apply (@species_loop_raises fq model a e _ I E).
Qed.

(* ================================================================= *)
(** ** Serialisation *)

Lemma Node_nested_ind (P : Node -> Prop) :
  (forall t a cs, Forall P cs -> P (N t a cs)) -> forall n, P n.
Proof.
  intro HN. fix IH 1. intros [t a cs]. apply HN.
  induction cs as [|c cs IHcs]; constructor; [apply IH | exact IHcs].
Qed.

Lemma serialize_items_raise items e :
  serialize_items items = Raise e -> e = TypeError.
Proof.
  induction items as [|[k [v|]] items IH]; simpl.
  - discriminate.
  - destruct (serialize_items items); simpl; [discriminate|].
    intro H. apply IH. congruence.
  - congruence.
Qed.

Lemma serialize_items_None items k :
  In (k, None) items -> serialize_items items = Raise TypeError.
Proof.
  induction items as [|[k' [v|]] items IH]; simpl.
  - intros [].
  - intros [H|H]; [discriminate|].
    rewrite (IH H). reflexivity.
  - reflexivity.
Qed.

Lemma each_raise (f : Node -> Exc string) l e :
  Forall (fun c => forall e', f c = Raise e' -> e' = TypeError) l ->
  each f l = Raise e -> e = TypeError.
Proof.
  induction 1 as [|c l Hc _ IH]; simpl; [discriminate|].
  destruct (f c) eqn:F; simpl.
  - destruct (each f l); simpl; [discriminate|].
    intro H. apply IH. congruence.
  - intro H. apply Hc. congruence.
Qed.

Lemma each_ok (f : Node -> Exc string) l s :
  each f l = Ok s -> forall c, In c l -> exists s', f c = Ok s'.
Proof.
  revert s. induction l as [|c0 l IH]; simpl; intros s H c; [intros []|].
  destruct (f c0) eqn:F; simpl in H; [|discriminate].
  destruct (each f l) eqn:E; simpl in H; [|discriminate].
  intros [<-|I]; eauto.
Qed.

Lemma serialize_xml_raise n : forall e, serialize_xml n = Raise e -> e = TypeError.
Proof.
  induction n as [t a cs IH] using Node_nested_ind. intro e. simpl.
  destruct (serialize_items a) eqn:A; simpl.
  - destruct cs as [|c cs]; [discriminate|].
    destruct (each serialize_xml (c :: cs)) eqn:E; simpl; [discriminate|].
    intro H. apply (@each_raise serialize_xml (c :: cs) e IH). congruence.
  - intro H. apply (@serialize_items_raise a e). congruence.
Qed.

Lemma serialize_xml_ok t a cs s :
  serialize_xml (N t a cs) = Ok s ->
  (exists sa, serialize_items a = Ok sa)
  /\ forall c, In c cs -> exists s', serialize_xml c = Ok s'.
Proof.
  simpl. destruct (serialize_items a) eqn:A; simpl; [|discriminate].
  intro H. split; [eauto|].
  destruct cs as [|c0 cs]; [intros c []|].
  destruct (each serialize_xml (c0 :: cs)) eqn:E; simpl in H; [|discriminate].
  apply (@each_ok _ _ _ E).
Qed.

Lemma serialize_nameless (info : SpeciesTable) species data :
  In (species, data) info -> name data = None ->
  serialize_xml (qual_tree info) = Raise TypeError.
Proof.
  intros I NM. destruct (serialize_xml (qual_tree info)) as [s|e] eqn:E.
  - exfalso. cbv [qual_tree add_positions] in E.
    apply serialize_xml_ok in E. destruct E as [_ E].
    destruct (E _ (or_introl eq_refl)) as [s1 E1].
    apply serialize_xml_ok in E1. destruct E1 as [_ E1].
    destruct (E1 _ (or_intror (or_intror (or_introl eq_refl)))) as [s2 E2].
    apply serialize_xml_ok in E2. destruct E2 as [_ E2].
    destruct (E2 (qualitativeSpecies species data)) as [s3 E3].
    { apply (in_map (fun kv => qualitativeSpecies (fst kv) (snd kv)) _ _ I). }
    unfold qualitativeSpecies in E3.
    apply serialize_xml_ok in E3. destruct E3 as [[sa E3] _].
    rewrite (@serialize_items_None _ "qual:name") in E3; [discriminate|].
    rewrite NM. simpl. auto.
  - f_equal. apply (@serialize_xml_raise _ _ E).
Qed.

(* ================================================================= *)
(** ** Whole runs *)

(** C7. When the program is given an input and an output path and the
    root element of the parsed input is not the SBML Level 2 Version 4
    root, the run prints the progress line and the message, ends with exit
    status 1, and leaves the output path untouched. *)
Theorem schema_mismatch_is_fatal
        (fq : string -> Element -> Exc (option Element)) (world : World)
        (argv0 celldesignerfile outfile : string) (root : Element) :
  argv world = [argv0; celldesignerfile; outfile] ->
  parse world celldesignerfile = Ok root ->
  tag root <> in_sbml "sbml" ->
  main fq world
  = {| stdout := [("parsing " ++ celldesignerfile ++ ellipsis)%string;
                  "Currently limited to SBML Level 2 Version 4"];
       result := Raise (SystemExit 1);
       written := None |}.
Proof.
  intros A P T. unfold main, read_celldesigner. rewrite A, P.
  apply String.eqb_neq in T. rewrite T. reflexivity.
Qed.

(** C10. A table that holds a record without a name cannot be written:
    the output file is opened and the serialisation then raises, because
    the qualitative-species element carries the None as its name.  The
    sample document whose species definition has no name attribute is in
    the expected schema, passes both extraction phases, and its run ends
    in this way. *)
Theorem missing_name_is_fatal
        (fq : string -> Element -> Exc (option Element)) :
  (forall can_open filename (info : SpeciesTable) species data,
      In (species, data) info -> name data = None ->
      can_open filename = true ->
      nget "qual:name" (qualitativeSpecies species data) = Some None
      /\ write_qual can_open filename info
         = (Raise TypeError, Some (filename, Incomplete)))
  /\ (exists info,
        species_info fq Sample.no_name = Ok info
        /\ get_transitions Sample.no_name info = (Ok info, [])
        /\ option_map name (dict_get (Some "sa1") info) = Some None)
  /\ main fq (Sample.world (Sample.document Sample.no_name))
     = {| stdout := [("parsing in.xml" ++ ellipsis)%string];
          result := Raise TypeError;
          written := Some ("out.xml", Incomplete) |}.
Proof.
  split; [|split].
  - intros can_open filename info species data I NM O. split.
    + unfold nget. simpl. rewrite NM. reflexivity.
    + unfold write_qual. rewrite O, (@serialize_nameless _ _ _ I NM).
      reflexivity.
  - eexists. repeat split.
  - reflexivity.
Qed.


Lemma emitted_species_ids (info : SpeciesTable) :
  map (nget "qual:id") (emitted_species (qual_tree info))
  = map Some (keys info).
Proof.
  rewrite emitted_species_tree. unfold keys. rewrite !map_map. reflexivity.
Qed.


(* ================================================================= *)
(** ** The theorems at the sample documents *)

Ltac distinct_keys :=
  vm_compute; repeat constructor; simpl; intuition discriminate.

Ltac all_hold :=
  vm_compute; repeat (constructor; try reflexivity).

Lemma species_table_covers_placed_aliases_m1 :
  Forall (fun a => resolvable Sample.m1 a = true) (placed_aliases Sample.m1)
  /\ exists info,
      species_info Sample.no_quoted Sample.m1 = Ok info
      /\ keys info = [Some "sa1"; Some "sa2"]
      /\ List.length info = 2.
Proof.
  assert (R : Forall (fun a => resolvable Sample.m1 a = true)
                     (placed_aliases Sample.m1)) by all_hold.
  split; [exact R|].
  destruct (@species_table_covers_placed_aliases Sample.no_quoted Sample.m1)
    as (T & P).
  destruct (T R) as (info & E).
  destruct (P info E) as (_ & K & _ & _ & _ & D).
  exists info. split; [exact E|]. split; [exact K|].
  apply D. distinct_keys.
Defined.

Lemma every_species_emitted_once_table1 :
  NoDup (keys Sample.table1)
  /\ List.length (emitted_species (qual_tree Sample.table1)) = 2
  /\ List.length (emitted_transitions (qual_tree Sample.table1)) = 2.
Proof.
  assert (ND : NoDup (keys Sample.table1)) by distinct_keys.
  split; [exact ND|].
  destruct (@every_species_emitted_once Sample.table1 ND) as (_ & S & T & _).
  split; [exact S | exact T].
Defined.

Lemma schema_mismatch_is_fatal_html :
  tag Sample.html <> in_sbml "sbml"
  /\ main Sample.no_quoted (Sample.world Sample.html)
     = {| stdout := [("parsing in.xml" ++ ellipsis)%string;
                     "Currently limited to SBML Level 2 Version 4"];
          result := Raise (SystemExit 1);
          written := None |}.
Proof.
  assert (T : tag Sample.html <> in_sbml "sbml") by (vm_compute; discriminate).
  split; [exact T|].
  exact (@schema_mismatch_is_fatal Sample.no_quoted
           (Sample.world Sample.html) "casq" "in.xml" "out.xml" Sample.html
           eq_refl eq_refl T).
Defined.

Lemma unguarded_lookups_raise_samples :
  (exists e, species_info Sample.no_quoted Sample.no_activity = Raise e)
  /\ (exists e, species_info Sample.no_quoted Sample.no_bounds = Raise e)
  /\ (exists e, species_info Sample.no_quoted Sample.no_definition = Raise e)
  /\ (exists e, species_info Sample.no_quoted Sample.no_annotation = Raise e).
Proof.
  split; [|split; [|split]].
  - eapply unguarded_lookups_raise.
    + left. reflexivity.
    + left. reflexivity.
  - eapply unguarded_lookups_raise.
    + left. reflexivity.
    + right. left. reflexivity.
  - eapply unguarded_lookups_raise.
    + left. reflexivity.
    + right. right. exists "s1". repeat split. left. reflexivity.
  - eapply unguarded_lookups_raise.
    + left. reflexivity.
    + right. right. exists "s1". repeat split. right. reflexivity.
Defined.

(* ================================================================= *)
(** ** Which tables can be written *)

Lemma forallb_map (A B : Type) (f : B -> bool) (g : A -> B) (l : list A) :
  forallb f (map g l) = forallb (fun a => f (g a)) l.
Proof.
  induction l as [|a l IH]; simpl; [reflexivity|]. rewrite IH. reflexivity.
Qed.

Lemma forallb_andb (A : Type) (f g : A -> bool) (l : list A) :
  forallb (fun a => f a && g a) l = forallb f l && forallb g l.
Proof.
  induction l as [|a l IH]; simpl; [reflexivity|]. rewrite IH.
  destruct (f a), (g a), (forallb f l); reflexivity.
Qed.

Lemma forallb_ext (A : Type) (f g : A -> bool) (l : list A) :
  (forall a, f a = g a) -> forallb f l = forallb g l.
Proof.
  intro E. induction l as [|a l IH]; simpl; [reflexivity|].
  rewrite E, IH. reflexivity.
Qed.

Lemma serialize_items_set items :
  (exists s, serialize_items items = Ok s)
  <-> forallb (fun kv => is_set (snd kv)) items = true.
Proof.
  induction items as [|[k [v|]] items IH]; simpl.
  - split; eauto.
  - rewrite <- IH. split.
    + intros [s E]. destruct (serialize_items items); [eauto|discriminate].
    + intros [s E]. rewrite E. simpl. eauto.
  - split; [intros [s E]|intro E]; discriminate.
Qed.

Lemma each_all_ok (f : Node -> Exc string) l :
  Forall (fun c => exists s, f c = Ok s) l -> exists s, each f l = Ok s.
Proof.
  induction 1 as [|c l [sc Ec] _ [sl El]]; simpl.
  - eauto.
  - rewrite Ec, El. simpl. eauto.
Qed.

Lemma serialize_xml_all_set n :
  (exists s, serialize_xml n = Ok s) <-> all_set n = true.
Proof.
  induction n as [t a cs IH] using Node_nested_ind.
  change (all_set (N t a cs))
    with (forallb (fun kv => is_set (snd kv)) a && forallb all_set cs).
  rewrite andb_true_iff, <- serialize_items_set. split.
  - intros [s E]. apply serialize_xml_ok in E. destruct E as [A C].
    split; [exact A|]. apply forallb_forall. intros c I.
    rewrite Forall_forall in IH. apply (IH c I). apply C. exact I.
  - intros [[sa A] C]. simpl. rewrite A. simpl.
    destruct cs as [|c cs]; [eauto|].
    destruct (@each_all_ok serialize_xml (c :: cs)) as [body B].
    + rewrite Forall_forall in *. intros c' I. apply (IH c' I).
      rewrite forallb_forall in C. apply C. exact I.
    + rewrite B. simpl. eauto.
Qed.

Lemma all_set_numbered species l start :
  forallb all_set (numbered species start l)
  = forallb (fun c => is_set (snd c)) l.
Proof.
  revert start. induction l as [|[modtype modifier] l IH]; intro start.
  - reflexivity.
  - unfold numbered in *. simpl. rewrite IH.
    destruct modifier; reflexivity.
Qed.

Lemma chain_modifiers_set (r : Influence) :
  forallb (fun c => is_set (snd c)) (chain_modifiers r)
  = influence_writable r.
Proof.
  destruct r as [[rtype reacs] mods]. unfold chain_modifiers. simpl.
  rewrite forallb_app, !forallb_map. simpl. f_equal.
  unfold enumerate. generalize 0.
  induction reacs as [|a reacs IH]; intro n; simpl; [reflexivity|].
  rewrite IH. reflexivity.
Qed.

Lemma all_set_inputs species rs :
  forallb all_set (numbered species 0 (flat_map chain_modifiers rs))
  = forallb influence_writable rs.
Proof.
  rewrite all_set_numbered.
  induction rs as [|r rs IH]; simpl; [reflexivity|].
  rewrite forallb_app, chain_modifiers_set, IH. reflexivity.
Qed.

Lemma all_set_item (kv : Str * SpeciesRecord) :
  all_set (speciesGlyph (fst kv) (snd kv))
  && all_set (qualitativeSpecies (fst kv) (snd kv))
  && all_set (transition (fst kv) (snd kv))
  = record_writable kv.
Proof.
  destruct kv as [k d]. unfold record_writable, transition. simpl.
  rewrite input_loop_spec. simpl. rewrite all_set_inputs.
  destruct k, (x d), (y d), (h d), (w d), (name d); simpl;
    try reflexivity;
    destruct (forallb influence_writable (transitions d)); reflexivity.
Qed.

Lemma all_set_qual_tree (info : SpeciesTable) :
  all_set (qual_tree info) = writable info.
Proof.
  transitivity
    (forallb all_set (map (fun kv => speciesGlyph (fst kv) (snd kv)) info)
     && forallb all_set
          (map (fun kv => qualitativeSpecies (fst kv) (snd kv)) info)
     && forallb all_set (map (fun kv => transition (fst kv) (snd kv)) info)).
  - cbv [qual_tree add_positions add_transitions].
    set (gs := map (fun kv => speciesGlyph (fst kv) (snd kv)) info).
    set (qs := map (fun kv => qualitativeSpecies (fst kv) (snd kv)) info).
    set (ts := map (fun kv => transition (fst kv) (snd kv)) info).
    simpl.
    destruct (forallb all_set gs), (forallb all_set qs), (forallb all_set ts);
      reflexivity.
  - rewrite 3 forallb_map. unfold writable.
    rewrite <- (forallb_ext _ _ info all_set_item).
    rewrite (forallb_andb
               (fun kv => all_set (speciesGlyph (fst kv) (snd kv))
                          && all_set (qualitativeSpecies (fst kv) (snd kv)))
               (fun kv => all_set (transition (fst kv) (snd kv))) info).
    rewrite (forallb_andb
               (fun kv => all_set (speciesGlyph (fst kv) (snd kv)))
               (fun kv => all_set (qualitativeSpecies (fst kv) (snd kv)))
               info).
    reflexivity.
Qed.

Lemma serialize_writable (info : SpeciesTable) :
  (writable info = true -> exists bytes, serialize_xml (qual_tree info) = Ok bytes)
  /\ (writable info = false -> serialize_xml (qual_tree info) = Raise TypeError).
Proof.
  rewrite <- all_set_qual_tree. split; intro W.
  - apply serialize_xml_all_set. exact W.
  - destruct (serialize_xml (qual_tree info)) as [s|e] eqn:E.
    + assert (A : all_set (qual_tree info) = true)
        by (apply serialize_xml_all_set; eauto).
      congruence.
    + f_equal. apply (@serialize_xml_raise _ _ E).
Qed.

(** X1. What [write_qual] does is decided by the output path and by
    the table alone.  If the path cannot be opened nothing is written.
    Otherwise the complete document is written when the key, the four
    bounds and the name of every record and the alias of every reactant
    and modifier are present, and the write stops with a TypeError,
    leaving an incomplete file, as soon as one of them is None. *)
Theorem write_qual_outcome
        (can_open : string -> bool) (filename : string)
        (info : SpeciesTable) :
  (can_open filename = false ->
   write_qual can_open filename info = (Raise OSError, None))
  /\ (can_open filename = true -> writable info = true ->
      exists bytes,
        serialize_xml (qual_tree info) = Ok bytes
        /\ write_qual can_open filename info
           = (Ok tt,
              Some (filename, Complete (xml_declaration ++ bytes)%string)))
  /\ (can_open filename = true -> writable info = false ->
      write_qual can_open filename info
      = (Raise TypeError, Some (filename, Incomplete))).
Proof.
  unfold write_qual. destruct (serialize_writable info) as [Y Nn].
  split; [|split].
  - intro O. rewrite O. reflexivity.
  - intros O W. rewrite O. destruct (Y W) as [bytes E].
    exists bytes. rewrite E. split; reflexivity.
  - intros O W. rewrite O, (Nn W). reflexivity.
Qed.

(* ================================================================= *)
(** ** What the emitted document does not depend on *)

Lemma chain_modifiers_forget (rs : list Influence) :
  flat_map chain_modifiers
           (map (fun r : Influence => (None, snd (fst r), snd r)) rs)
  = flat_map chain_modifiers rs.
Proof.
  induction rs as [|[[rtype reacs] mods] rs IH]; simpl; [reflexivity|].
  rewrite IH. reflexivity.
Qed.

Lemma transition_forget species data :
  transition species (forget data) = transition species data.
Proof.
  unfold transition, forget. simpl.
  rewrite !input_loop_spec, chain_modifiers_forget. reflexivity.
Qed.

Lemma qual_tree_view (info : SpeciesTable) :
  qual_tree (view info) = qual_tree info.
Proof.
  cbv [qual_tree add_positions add_transitions view].
  rewrite !map_map. simpl.
  rewrite (map_ext
             (fun kv : Str * SpeciesRecord =>
                transition (fst kv) (forget (snd kv)))
             (fun kv => transition (fst kv) (snd kv))
             (fun kv => transition_forget (fst kv) (snd kv))).
  reflexivity.
Qed.

(** X2. Two tables that differ only in the activity, the class and the
    modifications of their records and in the types of their reactions
    are written as the same file: emission reads none of these. *)
Theorem output_ignores_unread_fields
        (can_open : string -> bool) (filename : string)
        (info1 info2 : SpeciesTable) :
  view info1 = view info2 ->
  qual_tree info1 = qual_tree info2
  /\ write_qual can_open filename info1 = write_qual can_open filename info2.
Proof.
  intro V.
  assert (T : qual_tree info1 = qual_tree info2).
  { rewrite <- (qual_tree_view info1), V. apply qual_tree_view. }
  split; [exact T|]. unfold write_qual. rewrite T. reflexivity.
Qed.

(* ================================================================= *)
(** ** The synthetic identifiers *)

Lemma append_inj_l (p a b : string) : (p ++ a = p ++ b)%string -> a = b.
Proof.
  induction p as [|c p IH]; simpl; intro H; [exact H|].
  inversion H. auto.
Qed.

Lemma fmt_int_inj (a b : nat) : fmt_int a = fmt_int b -> a = b.
Proof.
  unfold fmt_int. intro H.
  apply (f_equal NilEmpty.uint_of_string) in H.
  rewrite !NilEmpty.usu in H. inversion H as [U].
  apply (f_equal Nat.of_uint) in U. rewrite !Unsigned.of_to in U. exact U.
Qed.

Lemma input_id_inj species (a b : nat) :
  input_id species a = input_id species b -> a = b.
Proof.
  unfold input_id. intro H.
  apply (append_inj_l "tr_"), (append_inj_l (fmt species)),
    (append_inj_l "_in_") in H.
  apply fmt_int_inj. exact H.
Qed.

Lemma emitted_glyphs_tree (info : SpeciesTable) :
  emitted_glyphs (qual_tree info)
  = map (fun kv => speciesGlyph (fst kv) (snd kv)) info.
Proof.
  unfold emitted_glyphs, list_of, model_of, qual_tree. simpl.
  rewrite !app_nil_r. reflexivity.
Qed.

Lemma emitted_glyph_species (info : SpeciesTable) :
  map (nget "layout:species") (emitted_glyphs (qual_tree info))
  = map Some (keys info).
Proof.
  rewrite emitted_glyphs_tree. unfold keys. rewrite !map_map. reflexivity.
Qed.

Lemma NoDup_map_Some (A : Type) (l : list A) :
  NoDup l -> NoDup (map Some l).
Proof.
  apply Injective_map_NoDup. intros a b H. inversion H. reflexivity.
Qed.

Lemma transition_ids (info : SpeciesTable) :
  map (nget "qual:id") (add_transitions info)
  = map (fun k => Some (Some ("tr_" ++ fmt k)%string)) (keys info).
Proof.
  unfold add_transitions, keys. rewrite !map_map. reflexivity.
Qed.

Lemma transition_parts_ids species data :
  map (nget "qual:id")
      (inputs_of (transition species data)
       ++ outputs_of (transition species data))
  = map (fun index => Some (Some (input_id species index)))
        (seq 0 (List.length (flat_map chain_modifiers (transitions data))))
    ++ [Some (Some ("tr_" ++ fmt species ++ "_out")%string)].
Proof.
  rewrite map_app, inputs_of_transition, numbered_ids. reflexivity.
Qed.

(** X3. In the document emitted for a table with distinct keys the ids
    of the qualitative species are pairwise distinct, and so are the
    species that the glyphs refer to.  When no key is None the ids of the
    transitions are pairwise distinct as well, and inside every
    transition the ids of the inputs and the id of the output are pairwise
    distinct.  Across the two kinds the scheme does repeat itself: the
    transition of a species whose id ends in _in_<index> has the id of an
    input of the species named by the rest. *)
Theorem emitted_ids_are_distinct (info : SpeciesTable) :
  NoDup (keys info) ->
  NoDup (map (nget "qual:id") (emitted_species (qual_tree info)))
  /\ NoDup (map (nget "layout:species") (emitted_glyphs (qual_tree info)))
  /\ (forallb is_set (keys info) = true ->
      NoDup (map (nget "qual:id") (emitted_transitions (qual_tree info))))
  /\ (forall t,
        In t (emitted_transitions (qual_tree info)) ->
        NoDup (map (nget "qual:id") (inputs_of t ++ outputs_of t)))
  /\ (forall (s : string) (index : nat) (data : SpeciesRecord)
             (modtype : ModType) (modifier : Str),
        nget "qual:id"
             (transition (Some (s ++ "_in_" ++ fmt_int index)%string) data)
        = nget "qual:id" (input (Some s) index modtype modifier)).
Proof.
  intro ND. split; [|split; [|split; [|split]]].
  - rewrite emitted_species_ids. apply NoDup_map_Some. exact ND.
  - rewrite emitted_glyph_species. apply NoDup_map_Some. exact ND.
  - intro S. rewrite emitted_transitions_tree, transition_ids.
    apply NoDup_map_NoDup_ForallPairs; [|exact ND].
    intros k1 k2 I1 I2 E. rewrite forallb_forall in S.
    pose proof (S k1 I1) as S1. pose proof (S k2 I2) as S2.
    destruct k1 as [a|], k2 as [b|]; try discriminate.
    assert (E' : ("tr_" ++ a = "tr_" ++ b)%string) by (simpl in E; congruence).
    apply (append_inj_l "tr_") in E'. congruence.
  - intros t I. rewrite emitted_transitions_tree in I.
    apply in_map_iff in I. destruct I as ([k d] & <- & _). simpl fst. simpl snd.
    rewrite transition_parts_ids. apply NoDup_app.
    + apply Injective_map_NoDup; [|apply seq_NoDup].
      intros a b E.
      assert (E' : input_id k a = input_id k b) by congruence.
      apply (@input_id_inj k a b E').
    + constructor; [intros []|constructor].
    + intros a Ia [<-|[]]. apply in_map_iff in Ia.
      destruct Ia as (i & E & _).
      assert (E' : input_id k i = ("tr_" ++ fmt k ++ "_out")%string)
        by congruence.
      unfold input_id in E'.
      apply (append_inj_l "tr_"), (append_inj_l (fmt k)) in E'.
      discriminate.
  - reflexivity.
Qed.

(* ================================================================= *)
(** ** Aliases that share an id *)

Lemma dict_get_set (V : Type) (k k' : Str) (v : V) (d : dict V) :
  dict_get k (dict_set k' v d)
  = if Str_eqb k k' then Some v else dict_get k d.
Proof.
  induction d as [|[k0 v0] d IH]; simpl.
  - reflexivity.
  - str_cases k' k0; simpl.
    + subst k0. destruct (Str_eqb k k'); reflexivity.
    + str_cases k k0.
      * subst k0. rewrite (proj2 (Str_eqb_neq k k')) by congruence.
        reflexivity.
      * exact IH.
Qed.

Lemma species_loop_get fq model aliases :
  forall acc info,
    species_loop fq model aliases acc = Ok info ->
    forall k,
      dict_get k info
      = match latest k aliases with
        | Some a => entry_of fq model a
        | None => dict_get k acc
        end.
Proof.
  induction aliases as [|a aliases IH]; intros acc info; simpl.
  - intro H. inversion H. reflexivity.
  - destruct (species_entry fq model a) as [kv|] eqn:E; simpl; [|discriminate].
    intros H k. rewrite (IH _ _ H k).
    destruct (latest k aliases) as [b|]; [reflexivity|].
    rewrite dict_get_set, (species_entry_key _ _ _ E), Str_eqb_sym.
    destruct (Str_eqb (get "id" a) k); [|reflexivity].
    unfold entry_of. rewrite E. reflexivity.
Qed.

Lemma latest_Some k aliases a :
  latest k aliases = Some a ->
  exists before after,
    aliases = before ++ a :: after
    /\ get "id" a = k
    /\ Forall (fun b => get "id" b <> k) after.
Proof.
  revert a. induction aliases as [|a0 aliases IH]; intro a; simpl.
  - discriminate.
  - destruct (latest k aliases) as [b|] eqn:L.
    + intro H. inversion H. subst b.
      destruct (IH a eq_refl) as (before & after & -> & I & F).
      exists (a0 :: before), after. auto.
    + str_cases (get "id" a0) k; [|discriminate].
      intro H. inversion H. subst a0.
      exists [], aliases. repeat split; [assumption|].
      clear IH H. induction aliases as [|b aliases IHa]; [constructor|].
      simpl in L. destruct (latest k aliases); [discriminate|].
      str_cases (get "id" b) k; [discriminate|].
      constructor; [assumption | apply IHa; reflexivity].
Qed.

Lemma latest_None k aliases :
  latest k aliases = None -> ~ In k (map (get "id") aliases).
Proof.
  induction aliases as [|a aliases IH]; simpl.
  - intros _ [].
  - destruct (latest k aliases); [discriminate|].
    str_cases (get "id" a) k; [discriminate|].
    intros _ [H|H]; [contradiction | apply IH; auto].
Qed.

(** X4. In every table that species extraction returns, the record
    stored for an id is the one built from the last placed alias with
    that id: a later alias replaces the record of an earlier one (which
    keeps its place in the table), and an id of no placed alias has no
    record. *)
Theorem last_alias_with_an_id_wins
        (fq : string -> Element -> Exc (option Element))
        (model : Element) (info : SpeciesTable) (k : Str) :
  species_info fq model = Ok info ->
  dict_get k info
  = match latest k (placed_aliases model) with
    | Some a => entry_of fq model a
    | None => None
    end
  /\ (forall a,
        latest k (placed_aliases model) = Some a ->
        exists before after data,
          placed_aliases model = before ++ a :: after
          /\ get "id" a = k
          /\ Forall (fun b => get "id" b <> k) after
          /\ species_entry fq model a = Ok (k, data)
          /\ dict_get k info = Some data)
  /\ (latest k (placed_aliases model) = None ->
      ~ In k (map (get "id") (placed_aliases model))
      /\ dict_get k info = None).
Proof.
  intro E. unfold species_info in E. fold (placed_aliases model) in E.
  pose proof (@species_loop_get _ _ _ _ _ E k) as G. simpl in G.
  split; [exact G|]. split.
  - intros a L. destruct (latest_Some _ _ L) as (before & after & P & I & F).
    rewrite L in G. unfold entry_of in G.
    destruct (species_entry fq model a) as [[k' data]|e] eqn:Ea.
    + exists before, after, data. repeat split; try assumption.
      apply species_entry_key in Ea. simpl in Ea. congruence.
    + exfalso.
      assert (Ia : In a (placed_aliases model))
        by (rewrite P; apply in_or_app; right; left; reflexivity).
      clear - E Ia Ea. revert E. generalize (@nil (Str * SpeciesRecord)).
      induction (placed_aliases model) as [|a0 l IH]; [destruct Ia|].
      intros acc. simpl.
      destruct (species_entry fq model a0) as [kv|e0] eqn:E0; simpl.
      * destruct Ia as [->|Ia]; [congruence|]. apply IH. exact Ia.
      * discriminate.
  - intro L. rewrite L in G. split; [|exact G].
    apply latest_None. exact L.
Qed.

(* ================================================================= *)
(** ** What the layout and the species elements copy *)

Lemma fixed_part_update k r (d : SpeciesTable) :
  map fixed_part (dict_update k (append_transition r) d) = map fixed_part d.
Proof.
  induction d as [|[k' v'] d IH]; simpl; [reflexivity|].
  destruct (Str_eqb k k'); simpl; [reflexivity|]. rewrite IH. reflexivity.
Qed.

Lemma product_loop_fixed r prods :
  forall info out,
    map fixed_part (fst (product_loop r prods info out))
    = map fixed_part info.
Proof.
  induction prods as [|p prods IH]; intros info out; simpl; [reflexivity|].
  destruct (dict_mem p info).
  - rewrite IH. apply fixed_part_update.
  - apply IH.
Qed.

Lemma reaction_loop_fixed reactions :
  forall info out info' out',
    reaction_loop reactions info out = (Ok info', out') ->
    map fixed_part info' = map fixed_part info.
Proof.
  induction reactions as [|trans reactions IH]; intros info out info' out';
    simpl.
  - intro H. inversion H. reflexivity.
  - destruct (read_reaction trans) as [[r prods]|e]; [|discriminate].
    pose proof (product_loop_fixed r prods info out) as F.
    destruct (product_loop r prods info out) as [info1 out1]. simpl in F.
    intro H. apply IH in H. congruence.
Qed.

Lemma Forall2_through_map (A B C D : Type) (f : A -> D) (g : A -> C)
      (R : A -> B -> Prop) (P : C -> B -> Prop) (l l' : list A) (l2 : list B) :
  map f l' = map f l ->
  Forall2 R l l2 ->
  (forall a' a b, f a' = f a -> R a b -> P (g a') b) ->
  Forall2 P (map g l') l2.
Proof.
  intros M F HP. revert l' M.
  induction F as [|a b l l2 Rab F IH]; intros l' M.
  - destruct l'; [constructor|discriminate].
  - destruct l' as [|a' l']; [discriminate|]. simpl in M. inversion M.
    simpl. constructor; [eapply HP; eassumption | apply IH; assumption].
Qed.

(** X5. When the ids of the placed aliases are distinct, the emitted
    document has one glyph and one qualitative species per placed alias,
    in the order of the aliases.  The glyph refers to the alias' id and
    its bounding box repeats the x, y, h and w attributes of the alias'
    first bounds element as they are; the qualitative species carries the
    alias' id, the name attribute of the species definition found for the
    alias, maximal level 1, the compartment comp1 and constant false.
    Transition extraction changes none of this. *)
Theorem layout_is_copied_from_the_aliases
        (fq : string -> Element -> Exc (option Element))
        (model : Element) (info info' : SpeciesTable) (out : list string) :
  species_info fq model = Ok info ->
  get_transitions model info = (Ok info', out) ->
  NoDup (map (get "id") (placed_aliases model)) ->
  Forall2
    (fun g a =>
       exists b,
         find_descendant (in_cd "bounds") a = Some b
         /\ nattrib g = [("layout:species", get "id" a)]
         /\ part "layout:boundingBox" g
            = box (get "x" b) (get "y" b) (get "h" b) (get "w" b))
    (emitted_glyphs (qual_tree info')) (placed_aliases model)
  /\ Forall2
       (fun q a =>
          exists s,
            find_species fq model (get "species" a) = Ok (Some s)
            /\ nattrib q
               = [("qual:maxLevel", Some "1");
                  ("qual:compartment", Some "comp1");
                  ("qual:name", get "name" s);
                  ("qual:constant", Some "false");
                  ("qual:id", get "id" a)])
       (emitted_species (qual_tree info')) (placed_aliases model).
Proof.
  intros S G ND. unfold species_info in S. fold (placed_aliases model) in S.
  destruct (@species_loop_distinct _ _ _ _ _ S ND) as (entries & -> & F).
  simpl in G. unfold get_transitions in G.
  apply reaction_loop_fixed in G.
  rewrite emitted_glyphs_tree, emitted_species_tree. split.
  - apply (@Forall2_through_map _ _ _ _ fixed_part _ _ _ entries info' _ G F).
    intros [k' d'] [k d] a E Ea. unfold fixed_part in E. simpl in E.
    inversion E. subst.
    destruct (species_entry_inv _ _ _ Ea)
      as (act & b & s & annot & _ & B & _ & _ & -> & D).
    exists b. split; [exact B|]. rewrite D in *. simpl in *.
    split; [reflexivity|]. unfold part, box. simpl. congruence.
  - apply (@Forall2_through_map _ _ _ _ fixed_part _ _ _ entries info' _ G F).
    intros [k' d'] [k d] a E Ea. unfold fixed_part in E. simpl in E.
    inversion E. subst.
    destruct (species_entry_inv _ _ _ Ea)
      as (act & b & s & annot & _ & _ & Fs & _ & -> & D).
    exists s. split; [exact Fs|]. rewrite D in *. simpl in *.
    congruence.
Qed.

(* ================================================================= *)
(** ** Lookups that are not guarded *)

Lemma read_reaction_raise trans e :
  read_reaction trans = Raise e -> e = AttributeError.
Proof.
  unfold read_reaction, bind, deref.
  destruct (first (child_path [in_sbml "annotation"; in_cd "extension"] trans))
    as [annot|]; [|congruence].
  destruct (first (child_path [in_cd "reactionType"] annot)); [|congruence].
  discriminate.
Qed.

Lemma reaction_loop_prefix before :
  Forall readable before ->
  forall rest info out,
  exists info1,
    reaction_loop (before ++ rest) info out
    = reaction_loop rest info1
                    (out ++ flat_map (unknown_products info) before)
    /\ keys info1 = keys info.
Proof.
  induction 1 as [|trans before [[r prods] R] _ IH]; intros rest info out;
    simpl.
  - exists info. rewrite app_nil_r. auto.
  - rewrite R.
    destruct (product_loop_spec r prods info out) as (K & _ & O).
    destruct (product_loop r prods info out) as [info1 out1]. simpl in *.
    destruct (IH rest info1 out1) as (info2 & E & K2).
    exists info2. split; [|congruence].
    rewrite E, O, <- app_assoc. f_equal. f_equal.
    assert (U : unknown_products info trans
                = map diagnostic
                      (filter (fun p => negb (dict_mem p info)) prods))
      by (unfold unknown_products; rewrite R; reflexivity).
    rewrite U. f_equal.
    apply flat_map_ext. intro a. apply unknown_products_same_keys. exact K.
Qed.

(** X6. Transition extraction reads the extension and the reaction
    type of every reaction without a guard: at the first reaction element
    that has no annotation with an extension, or no reaction type in it,
    it raises AttributeError.  What it has printed by then are the
    diagnostics of the reactions before that one. *)
Theorem unreadable_reaction_raises
        (model : Element) (info : SpeciesTable)
        (before after : list Element) (trans : Element) :
  reactions_of model = before ++ trans :: after ->
  Forall readable before ->
  first (child_path [in_sbml "annotation"; in_cd "extension"] trans) = None
  \/ (exists annot,
        first (child_path [in_sbml "annotation"; in_cd "extension"] trans)
        = Some annot
        /\ first (child_path [in_cd "reactionType"] annot) = None) ->
  get_transitions model info
  = (Raise AttributeError, flat_map (unknown_products info) before).
Proof.
  intros P R U. unfold get_transitions. rewrite P.
  destruct (reaction_loop_prefix R (trans :: after) info [])
    as (info1 & E & _).
  rewrite E. simpl.
  assert (X : read_reaction trans = Raise AttributeError).
  { unfold read_reaction, bind, deref.
    destruct U as [U|(annot & U & T)]; rewrite U; [reflexivity|].
    rewrite T. reflexivity. }
  rewrite X. reflexivity.
Qed.

Lemma species_loop_prefix fq model before a e :
  Forall (fun b => resolvable model b = true) before ->
  species_entry fq model a = Raise e ->
  forall after acc,
    species_loop fq model (before ++ a :: after) acc = Raise e.
Proof.
  intros R E after. induction R as [|b before Rb _ IH]; intro acc; simpl.
  - rewrite E. reflexivity.
  - destruct (@species_entry_resolvable fq model b Rb)
      as (act & bd & s & annot & _ & _ & _ & _ & Eb).
    rewrite Eb. simpl. apply IH.
Qed.

(** X7. The first placed alias that fails decides how species
    extraction ends, and nothing later is looked at.  An alias without an
    activity element gives AttributeError; one with an activity but
    without a species attribute gives TypeError; one whose reference
    (free of double quotes) names no species definition, or one without an
    annotation, or that has no bounds element, gives AttributeError. *)
Theorem first_unresolved_alias_decides
        (fq : string -> Element -> Exc (option Element))
        (model : Element) (before after : list Element) (a : Element) :
  placed_aliases model = before ++ a :: after ->
  Forall (fun b => resolvable model b = true) before ->
  (forall e, species_entry fq model a = Raise e ->
             species_info fq model = Raise e)
  /\ (find_descendant (in_cd "activity") a = None ->
      species_info fq model = Raise AttributeError)
  /\ (forall act,
        find_descendant (in_cd "activity") a = Some act ->
        get "species" a = None ->
        species_info fq model = Raise TypeError)
  /\ (forall act ref,
        find_descendant (in_cd "activity") a = Some act ->
        get "species" a = Some ref ->
        has_dquote ref = false ->
        definition_of model a = None
        \/ annotation_of model a = None
        \/ find_descendant (in_cd "bounds") a = None ->
        species_info fq model = Raise AttributeError).
Proof.
  intros P R.
  assert (D : forall e, species_entry fq model a = Raise e ->
                        species_info fq model = Raise e).
  { intros e E. unfold species_info. fold (placed_aliases model).
    rewrite P. apply (@species_loop_prefix fq model before a e R E). }
  split; [exact D|]. split; [|split].
  - intro A. apply D. unfold species_entry. rewrite A. reflexivity.
  - intros act A S. apply D. unfold species_entry, find_species.
    rewrite A, S. reflexivity.
  - intros act ref A S Q H. apply D.
    unfold species_entry, find_species, annotation_of, definition_of in *.
    rewrite A, S in *. rewrite Q. cbv [bind deref].
    destruct (first (attr_is "id" ref _)) as [s|].
    + destruct (first (child_path [in_sbml "annotation"] s)) as [annot|].
      * destruct H as [H|[H|H]]; try discriminate. rewrite H. reflexivity.
      * reflexivity.
    + reflexivity.
Qed.

(** X8. A document with the expected root element but without a model
    element below it ends the run with AttributeError after the progress
    line; nothing is written. *)
Theorem missing_model_is_fatal
        (fq : string -> Element -> Exc (option Element)) (world : World)
        (argv0 celldesignerfile outfile : string) (root : Element) :
  argv world = [argv0; celldesignerfile; outfile] ->
  parse world celldesignerfile = Ok root ->
  tag root = in_sbml "sbml" ->
  first (child_path [in_sbml "model"] root) = None ->
  main fq world
  = {| stdout := [("parsing " ++ celldesignerfile ++ ellipsis)%string];
       result := Raise AttributeError;
       written := None |}.
Proof.
  intros A P T M. unfold main, read_celldesigner.
  rewrite A, P, T, String.eqb_refl. simpl negb. cbv iota.
  rewrite M. reflexivity.
Qed.

(** X9. With any number of arguments other than two the run prints the
    usage line, which names the program as it was called, and ends with
    exit status 1; it parses nothing and writes nothing, whatever the
    arguments are. *)
Theorem wrong_argument_count_is_fatal
        (fq : string -> Element -> Exc (option Element)) (world : World)
        (argv0 : string) (args : list string) :
  argv world = argv0 :: args ->
  List.length args <> 2 ->
  main fq world
  = {| stdout := [("Usage: [python3] " ++ argv0
                   ++ " <celldesignerinfile.xml> <sbmlqualoutfile.xml>")
                    %string];
       result := Raise (SystemExit 1);
       written := None |}.
Proof.
  intros A L. unfold main. rewrite A.
  destruct args as [|a1 [|a2 [|a3 args]]]; simpl in L; try lia;
    unfold usage; simpl; repeat f_equal.
Qed.

(* ================================================================= *)
(** ** Whole runs, phase by phase *)

Lemma main_in_schema fq world argv0 inf outf root model :
  argv world = [argv0; inf; outf] ->
  parse world inf = Ok root ->
  tag root = in_sbml "sbml" ->
  first (child_path [in_sbml "model"] root) = Some model ->
  forall info info' out,
    species_info fq model = Ok info ->
    get_transitions model info = (Ok info', out) ->
    main fq world
    = {| stdout := ("parsing " ++ inf ++ ellipsis)%string :: out;
         result := fst (write_qual (can_open world) outf info');
         written := snd (write_qual (can_open world) outf info') |}.
Proof.
  intros A P T M info info' out S G. unfold main, read_celldesigner.
  rewrite A, P, T, String.eqb_refl. simpl negb. cbv iota.
  rewrite M, S, G.
  destruct (write_qual (can_open world) outf info') as [r f]. reflexivity.
Qed.

(** X10. A run on a document in the expected schema whose placed
    aliases all resolve and whose reactions can all be read gets through
    both extraction phases and prints the progress line followed by the
    diagnostics of the reactions in document order.  It then returns
    normally and leaves the complete document if the table can be
    written, ends with TypeError and an incomplete file if it cannot, and
    ends with OSError and no file if the output path cannot be opened. *)
Theorem run_in_schema
        (fq : string -> Element -> Exc (option Element)) (world : World)
        (argv0 celldesignerfile outfile : string) (root model : Element) :
  argv world = [argv0; celldesignerfile; outfile] ->
  parse world celldesignerfile = Ok root ->
  tag root = in_sbml "sbml" ->
  first (child_path [in_sbml "model"] root) = Some model ->
  Forall (fun a => resolvable model a = true) (placed_aliases model) ->
  Forall readable (reactions_of model) ->
  exists info info',
    species_info fq model = Ok info
    /\ get_transitions model info
       = (Ok info', flat_map (unknown_products info) (reactions_of model))
    /\ stdout (main fq world)
       = ("parsing " ++ celldesignerfile ++ ellipsis)%string
         :: flat_map (unknown_products info) (reactions_of model)
    /\ (can_open world outfile = false ->
        result (main fq world) = Raise OSError
        /\ written (main fq world) = None)
    /\ (can_open world outfile = true -> writable info' = true ->
        result (main fq world) = Ok tt
        /\ exists bytes,
            serialize_xml (qual_tree info') = Ok bytes
            /\ written (main fq world)
               = Some (outfile,
                       Complete (xml_declaration ++ bytes)%string))
    /\ (can_open world outfile = true -> writable info' = false ->
        result (main fq world) = Raise TypeError
        /\ written (main fq world) = Some (outfile, Incomplete)).
Proof.
  intros A P T M R RR.
  destruct (@species_loop_total fq model _ R []) as [info S].
  fold (species_info fq model) in S.
  destruct (reaction_loop_spec RR info []) as (info' & G & _ & _).
  simpl in G. fold (get_transitions model info) in G.
  exists info, info'.
  rewrite (main_in_schema fq world A P T M S G). cbn [stdout result written].
  destruct (serialize_writable info') as [Y Nn].
  split; [exact S|]. split; [exact G|]. split; [reflexivity|].
  unfold write_qual. split; [|split].
  - intro O. rewrite O. split; reflexivity.
  - intros O W. rewrite O. destruct (Y W) as [bytes E]. rewrite E.
    split; [reflexivity|]. exists bytes. split; reflexivity.
  - intros O W. rewrite O, (Nn W). split; reflexivity.
Qed.

Lemma unknown_products_empty trans :
  unknown_products [] trans = map diagnostic (products_of trans).
Proof.
  unfold unknown_products, products_of.
  destruct (read_reaction trans) as [[r prods]|e]; [|reflexivity].
  f_equal. induction prods as [|p prods IH]; [reflexivity|].
  change (p :: filter (fun q => negb (dict_mem q (@nil (Str * SpeciesRecord))))
                      prods = p :: prods).
  f_equal. exact IH.
Qed.

(** X11. When no alias of the document is placed, the table is empty:
    every base product of every reaction is reported as unknown, in
    document order, and the run writes the document without any glyph,
    species or transition and returns normally. *)
Theorem nothing_placed_gives_the_empty_document
        (fq : string -> Element -> Exc (option Element)) (world : World)
        (argv0 celldesignerfile outfile : string) (root model : Element) :
  argv world = [argv0; celldesignerfile; outfile] ->
  parse world celldesignerfile = Ok root ->
  tag root = in_sbml "sbml" ->
  first (child_path [in_sbml "model"] root) = Some model ->
  placed_aliases model = [] ->
  Forall readable (reactions_of model) ->
  can_open world outfile = true ->
  exists bytes,
    serialize_xml (qual_tree []) = Ok bytes
    /\ emitted_species (qual_tree []) = []
    /\ emitted_transitions (qual_tree []) = []
    /\ emitted_glyphs (qual_tree []) = []
    /\ main fq world
       = {| stdout :=
              ("parsing " ++ celldesignerfile ++ ellipsis)%string
              :: flat_map (fun trans => map diagnostic (products_of trans))
                          (reactions_of model);
            result := Ok tt;
            written :=
              Some (outfile, Complete (xml_declaration ++ bytes)%string) |}.
Proof.
  intros A P T M E RR O.
  assert (S : species_info fq model = Ok []).
  { unfold species_info. fold (placed_aliases model). rewrite E. reflexivity. }
  destruct (reaction_loop_spec RR [] []) as (info' & G & K & _).
  simpl in G. fold (get_transitions model []) in G.
  destruct info' as [|kv info']; [|discriminate].
  rewrite (flat_map_ext _ _ unknown_products_empty) in G.
  destruct (serialize_xml (qual_tree [])) as [bytes|e] eqn:B;
    [|vm_compute in B; discriminate].
  exists bytes. split; [reflexivity|]. repeat split.
  rewrite (main_in_schema fq world A P T M S G).
  unfold write_qual. rewrite O, B. reflexivity.
Qed.

(** X12. A run writes to no path but its second argument, and it opens
    that path for writing only after both extraction phases have returned
    a table; and it returns normally exactly when it leaves a complete
    file. *)
Theorem only_the_output_path_is_written
        (fq : string -> Element -> Exc (option Element)) (world : World) :
  (forall path state,
      written (main fq world) = Some (path, state) ->
      exists argv0 celldesignerfile info,
        argv world = [argv0; celldesignerfile; path]
        /\ can_open world path = true
        /\ fst (read_celldesigner fq (parse world) celldesignerfile)
           = Ok info)
  /\ (result (main fq world) = Ok tt
      <-> exists path bytes,
          written (main fq world) = Some (path, Complete bytes)).
Proof.
  unfold main.
  destruct (argv world) as [|argv0 [|inf [|outf [|extra rest]]]];
    cbn [stdout result written];
    try (split; [intros path state H; discriminate
                | split; [discriminate | intros (p & b & H); discriminate]]).
  destruct (read_celldesigner fq (parse world) inf) as [[info|e] out] eqn:RC;
    cbn [stdout result written];
    try (split; [intros path state H; discriminate
                | split; [discriminate | intros (p & b & H); discriminate]]).
  destruct (write_qual (can_open world) outf info) as [r f] eqn:WQ.
  cbn [stdout result written].
  unfold write_qual in WQ.
  destruct (can_open world outf) eqn:O.
  - destruct (serialize_xml (qual_tree info)) as [bytes|e];
      inversion WQ; subst; clear WQ.
    + split.
      * intros path state H. inversion H. subst. exists argv0, inf, info.
        split; [reflexivity|]. split; [exact O|]. rewrite RC. reflexivity.
      * split; [intros _; eauto | reflexivity].
    + split.
      * intros path state H. inversion H. subst. exists argv0, inf, info.
        split; [reflexivity|]. split; [exact O|]. rewrite RC. reflexivity.
      * split; [discriminate | intros (p & b & H); discriminate].
  - inversion WQ; subst; clear WQ.
    split; [intros path state H; discriminate
           | split; [discriminate | intros (p & b & H); discriminate]].
Qed.


(** X14. The truth test on the list element in [get_mods] never
    changes the answer: the result is, for None as for any element, the
    state attributes (None where a child has none) of the direct
    modification children, so an element without children and a missing
    element both give the empty list. *)
Theorem get_mods_reads_direct_children (cd_modifications : option Element) :
  get_mods cd_modifications
  = match cd_modifications with
    | Some e =>
        map (get "state")
            (filter (has_tag (in_cd "modification")) (children e))
    | None => []
    end.
Proof.
  destruct cd_modifications as [[t a txt cs]|]; [|reflexivity].
  unfold get_mods, truthy, child_path, child_step. simpl.
  rewrite app_nil_r. destruct cs; reflexivity.
Qed.

(* ================================================================= *)
(** ** The further theorems at the sample documents *)

Lemma output_ignores_unread_fields_relabelled :
  view (Sample.table_of Sample.m1) = view Cases.relabelled
  /\ write_qual (fun _ => true) "out.xml" (Sample.table_of Sample.m1)
     = write_qual (fun _ => true) "out.xml" Cases.relabelled.
Proof.
  assert (V : view (Sample.table_of Sample.m1) = view Cases.relabelled)
    by reflexivity.
  split; [exact V|].
  exact (proj2 (@output_ignores_unread_fields
                  (fun _ => true) "out.xml" _ _ V)).
Defined.

Lemma emitted_ids_are_distinct_m1 :
  NoDup (keys (Sample.table_of Sample.m1))
  /\ NoDup (map (nget "qual:id")
                (emitted_transitions
                   (qual_tree (Sample.table_of Sample.m1)))).
Proof.
  assert (ND : NoDup (keys (Sample.table_of Sample.m1))) by distinct_keys.
  split; [exact ND|].
  destruct (@emitted_ids_are_distinct (Sample.table_of Sample.m1) ND)
    as (_ & _ & T & _).
  apply T. reflexivity.
Defined.

Lemma last_alias_with_an_id_wins_shared_id :
  exists info,
    species_info Sample.no_quoted Sample.shared_id = Ok info
    /\ option_map name (dict_get (Some "sa1") info) = Some (Some "B")
    /\ dict_get (Some "sa2") info = None.
Proof.
  destruct (species_info Sample.no_quoted Sample.shared_id) as [info|e] eqn:E;
    [|vm_compute in E; discriminate].
  exists info. split; [reflexivity|].
  destruct (@last_alias_with_an_id_wins
              Sample.no_quoted Sample.shared_id info (Some "sa1") E)
    as (G1 & _).
  destruct (@last_alias_with_an_id_wins
              Sample.no_quoted Sample.shared_id info (Some "sa2") E)
    as (G2 & _).
  rewrite G1, G2. split; reflexivity.
Defined.

Lemma layout_is_copied_from_the_aliases_m1 :
  NoDup (map (get "id") (placed_aliases Sample.m1))
  /\ exists info',
      List.length (emitted_glyphs (qual_tree info')) = 2
      /\ List.length (emitted_species (qual_tree info')) = 2.
Proof.
  assert (ND : NoDup (map (get "id") (placed_aliases Sample.m1)))
    by distinct_keys.
  split; [exact ND|].
  destruct (species_info Sample.no_quoted Sample.m1) as [info|e] eqn:S;
    [|vm_compute in S; discriminate].
  destruct (get_transitions Sample.m1 info) as [[info'|e] out] eqn:G.
  - exists info'.
    destruct (@layout_is_copied_from_the_aliases
                Sample.no_quoted Sample.m1 info info' out S G ND) as [F1 F2].
    apply Forall2_length in F1. apply Forall2_length in F2.
    split; [exact F1 | exact F2].
  - exfalso. vm_compute in S. inversion S. subst info.
    vm_compute in G. discriminate.
Defined.

Lemma unreadable_reaction_raises_sample :
  get_transitions Cases.unreadable (Sample.table_of Cases.unreadable)
  = (Raise AttributeError, ["ignoring unknown species sa7"]).
Proof.
  assert (P : reactions_of Cases.unreadable
              = [Sample.reaction "STATE_TRANSITION" [] ["sa7"] []]
                ++ Cases.untyped_reaction :: []) by reflexivity.
  assert (R : Forall readable
                     [Sample.reaction "STATE_TRANSITION" [] ["sa7"] []]).
  { repeat constructor. eexists. reflexivity. }
  rewrite (@unreadable_reaction_raises
             Cases.unreadable (Sample.table_of Cases.unreadable) _ _ _ P R).
  - reflexivity.
  - right. eexists. split; reflexivity.
Defined.

Lemma first_unresolved_alias_decides_no_reference :
  species_info Sample.no_quoted Cases.no_reference = Raise TypeError.
Proof.
  assert (P : exists a1 a2,
             placed_aliases Cases.no_reference = [a1] ++ a2 :: []
             /\ resolvable Cases.no_reference a1 = true
             /\ find_descendant (in_cd "activity") a2 = Some Sample.act
             /\ get "species" a2 = None).
  { eexists. eexists. repeat split. }
  destruct P as (a1 & a2 & P & R1 & A & S).
  destruct (@first_unresolved_alias_decides
              Sample.no_quoted Cases.no_reference [a1] [] a2 P
              (Forall_cons _ R1 (Forall_nil _))) as (_ & _ & T & _).
  exact (T Sample.act A S).
Defined.

Lemma missing_model_is_fatal_no_model :
  main Sample.no_quoted (Sample.world Cases.no_model)
  = {| stdout := [("parsing in.xml" ++ ellipsis)%string];
       result := Raise AttributeError;
       written := None |}.
Proof.
  exact (@missing_model_is_fatal
           Sample.no_quoted (Sample.world Cases.no_model)
           "casq" "in.xml" "out.xml" Cases.no_model
           eq_refl eq_refl eq_refl eq_refl).
Defined.

Lemma wrong_argument_count_is_fatal_short :
  main Sample.no_quoted Cases.short_world
  = {| stdout := ["Usage: [python3] casq <celldesignerinfile.xml> <sbmlqualoutfile.xml>"];
       result := Raise (SystemExit 1);
       written := None |}.
Proof.
  assert (L : List.length ["in.xml"] <> 2) by (simpl; lia).
  exact (@wrong_argument_count_is_fatal
           Sample.no_quoted Cases.short_world "casq" ["in.xml"] eq_refl L).
Defined.

Lemma run_in_schema_m1 :
  stdout (main Sample.no_quoted (Sample.world (Sample.document Sample.m1)))
  = [("parsing in.xml" ++ ellipsis)%string; "ignoring unknown species sa9"]
  /\ result (main Sample.no_quoted
                  (Sample.world (Sample.document Sample.m1)))
     = Ok tt.
Proof.
  assert (R : Forall (fun a => resolvable Sample.m1 a = true)
                     (placed_aliases Sample.m1)) by all_hold.
  assert (RR : Forall readable (reactions_of Sample.m1)).
  { vm_compute. repeat constructor. eexists. reflexivity. }
  destruct (@run_in_schema
              Sample.no_quoted (Sample.world (Sample.document Sample.m1))
              "casq" "in.xml" "out.xml"
              (Sample.document Sample.m1) Sample.m1
              eq_refl eq_refl eq_refl eq_refl R RR)
    as (info & info' & S & G & O & _ & Y & _).
  vm_compute in S. inversion S. subst info. clear S.
  vm_compute in G. inversion G. subst info'. clear G.
  split; [rewrite O; reflexivity|].
  destruct Y as [Y _]; reflexivity || exact Y.
Defined.

Lemma nothing_placed_gives_the_empty_document_sample :
  placed_aliases Cases.nothing_placed = []
  /\ stdout (main Sample.no_quoted
                  (Sample.world (Sample.document Cases.nothing_placed)))
     = [("parsing in.xml" ++ ellipsis)%string;
        "ignoring unknown species sa4"; "ignoring unknown species sa5"].
Proof.
  split; [reflexivity|].
  assert (RR : Forall readable (reactions_of Cases.nothing_placed)).
  { vm_compute. repeat constructor. eexists. reflexivity. }
  destruct (@nothing_placed_gives_the_empty_document
              Sample.no_quoted
              (Sample.world (Sample.document Cases.nothing_placed))
              "casq" "in.xml" "out.xml"
              (Sample.document Cases.nothing_placed) Cases.nothing_placed
              eq_refl eq_refl eq_refl eq_refl eq_refl RR eq_refl)
    as (bytes & _ & _ & _ & _ & M).
  rewrite M. reflexivity.
Defined.


(* ================================================================= *)
(** ** Transition extraction against the document *)

Lemma read_reaction_document trans :
  well_formed trans = true ->
  read_reaction trans = Ok (influence trans, base_products trans).
Proof.
  unfold well_formed, influence, reaction_type, type_element, reactants,
    base_products, modifiers, extension_of, read_reaction.
  destruct (first (child_path [in_sbml "annotation"; in_cd "extension"] trans))
    as [annot|]; [|discriminate].
  destruct (first (child_path [in_cd "reactionType"] annot)) as [rt|] eqn:T;
    [|discriminate].
  intros _. cbv [bind deref]. rewrite T. reflexivity.
Qed.

Lemma well_formed_readable reactions :
  Forall (fun trans => well_formed trans = true) reactions ->
  Forall readable reactions.
Proof.
  apply Forall_impl. intros trans W. eexists.
  apply read_reaction_document. exact W.
Qed.

Lemma dict_mem_keys (info : SpeciesTable) p :
  dict_mem p info = existsb (Str_eqb p) (keys info).
Proof.
  unfold dict_mem. induction info as [|[k v] info IH]; simpl; [reflexivity|].
  destruct (Str_eqb p k); [reflexivity | exact IH].
Qed.

Lemma influence_on_document species trans :
  well_formed trans = true ->
  influence_on species trans = contribution species trans.
Proof.
  intro W. unfold influence_on, contribution.
  rewrite (read_reaction_document _ W). reflexivity.
Qed.

Lemma unknown_products_document (info : SpeciesTable) trans :
  well_formed trans = true ->
  unknown_products info trans = reports (keys info) trans.
Proof.
  intro W. unfold unknown_products, reports.
  rewrite (read_reaction_document _ W). unfold diagnostic. f_equal.
  apply filter_ext. intro p. rewrite dict_mem_keys. reflexivity.
Qed.

Lemma flat_map_ext_Forall (A B : Type) (P : A -> Prop) (f g : A -> list B)
      (l : list A) :
  Forall P l -> (forall a, P a -> f a = g a) -> flat_map f l = flat_map g l.
Proof.
  intros F E. induction F as [|a l Pa _ IH]; simpl; [reflexivity|].
  rewrite (E a Pa), IH. reflexivity.
Qed.

Lemma get_transitions_document (model : Element) (info : SpeciesTable) :
  Forall (fun trans => well_formed trans = true) (reactions_of model) ->
  exists info',
    get_transitions model info
    = (Ok info', flat_map (reports (keys info)) (reactions_of model))
    /\ keys info' = keys info
    /\ forall species,
        dict_get species info'
        = option_map
            (extend (flat_map (contribution species) (reactions_of model)))
            (dict_get species info).
Proof.
  intro W. unfold get_transitions.
  destruct (reaction_loop_spec (well_formed_readable W) info [])
    as (info' & E & K & G).
  exists info'. split; [|split].
  - rewrite E. simpl. f_equal.
    apply (flat_map_ext_Forall _ _ W).
    intros trans Wt. apply unknown_products_document. exact Wt.
  - exact K.
  - intro species. rewrite G. f_equal. f_equal.
    apply (flat_map_ext_Forall _ _ W).
    intros trans Wt. apply influence_on_document. exact Wt.
Qed.

(** C3. When every reaction has an extension with a reaction type,
    transition extraction returns the table with the same keys.  The
    [transitions] list of the record of a species is then what it was
    followed, reaction by reaction in document order, by the influence
    (type, reactants, modifiers) read from each reaction that names the
    species among its base products, once per mention; no other field of
    the record changes, and an id that is no key gains no record.  A
    reaction contributes to a record exactly when the species is among its
    base products.  The lines printed are, reaction by reaction, one line
    "ignoring unknown species <alias>" per mention of a base product that
    is no key; such a product changes no record. *)
Theorem unknown_products_are_skipped (model : Element) (info : SpeciesTable) :
  Forall (fun trans => well_formed trans = true) (reactions_of model) ->
  exists info',
    get_transitions model info
    = (Ok info', flat_map (reports (keys info)) (reactions_of model))
    /\ keys info' = keys info
    /\ (forall species data,
          dict_get species info = Some data ->
          exists data',
            dict_get species info' = Some data'
            /\ transitions data'
               = transitions data
                 ++ flat_map (contribution species) (reactions_of model)
            /\ activity data' = activity data
            /\ x data' = x data /\ y data' = y data
            /\ h data' = h data /\ w data' = w data
            /\ name data' = name data
            /\ type data' = type data
            /\ modifications data' = modifications data)
    /\ (forall species,
          dict_get species info = None -> dict_get species info' = None)
    /\ (forall trans species,
          (In (reaction_type trans, reactants trans, modifiers trans)
              (contribution species trans)
           <-> In species (base_products trans))
          /\ (~ In species (base_products trans) ->
              contribution species trans = []))
    /\ (forall trans p,
          In p (base_products trans) -> ~ In p (keys info) ->
          In ("ignoring unknown species " ++ fmt p)%string
             (reports (keys info) trans))
    /\ (forall trans,
          Forall (fun p => In p (keys info)) (base_products trans) ->
          reports (keys info) trans = []).
Proof.
  intro W. destruct (@get_transitions_document model info W) as (info' & E & K & G).
  exists info'. split; [exact E|]. split; [exact K|].
  split; [|split; [|split; [|split]]].
  - intros species data D. rewrite G, D. simpl.
    eexists. split; [reflexivity|]. simpl. repeat split.
  - intros species D. rewrite G, D. reflexivity.
  - intros trans species. unfold contribution.
    fold (influence trans). split; [split|].
    + intro I. apply occurrences_pos.
      destruct (occurrences species (base_products trans)); [destruct I|lia].
    + intro I. apply occurrences_pos in I.
      destruct (occurrences species (base_products trans));
        [lia | left; reflexivity].
    + intro NI.
      destruct (occurrences species (base_products trans)) eqn:O;
        [reflexivity|].
      exfalso. apply NI. apply occurrences_pos. lia.
  - intros trans p I NK. unfold reports.
    apply (in_map (fun q => ("ignoring unknown species " ++ fmt q)%string)).
    apply filter_In. split; [exact I|].
    destruct (existsb (Str_eqb p) (keys info)) eqn:X; [|reflexivity].
    apply existsb_keys in X. contradiction.
  - intros trans F. unfold reports.
    induction F as [|p l Ip _ IH]; [reflexivity|]. simpl.
    rewrite (proj2 (existsb_keys p (keys info)) Ip). simpl. exact IH.
Qed.

(** C5. Let every reaction have an extension with a reaction type and
    let [species] be a key of the table.  After transition extraction the
    [transitions] of its record are what they were followed by the
    influences of the reactions in document order, and the emitted
    document holds a transition with the id tr_<species> whose output
    refers to the species (the only such transition when the keys are
    distinct).  The inputs of this emitted transition refer, in order, to
    the contributors of these influences, influence after influence and,
    within one influence, the base reactants before the declared
    modifiers; the id of the input at position [index], counted from 0
    over the whole list, is tr_<species>_in_<index>. *)
Theorem inputs_follow_document_order
        (model : Element) (info : SpeciesTable)
        (species : Str) (data0 : SpeciesRecord) :
  Forall (fun trans => well_formed trans = true) (reactions_of model) ->
  dict_get species info = Some data0 ->
  exists info' out data t,
    get_transitions model info = (Ok info', out)
    /\ dict_get species info' = Some data
    /\ transitions data
       = transitions data0
         ++ flat_map (contribution species) (reactions_of model)
    /\ In t (emitted_transitions (qual_tree info'))
    /\ nget "qual:id" t = Some (Some ("tr_" ++ fmt species)%string)
    /\ map (nget "qual:qualitativeSpecies") (outputs_of t) = [Some species]
    /\ map (nget "qual:qualitativeSpecies") (inputs_of t)
       = map (fun c => Some (snd c))
             (flat_map contributors (transitions data))
    /\ map (nget "qual:id") (inputs_of t)
       = map (fun index =>
                Some (Some ("tr_" ++ fmt species ++ "_in_"
                            ++ fmt_int index)%string))
             (seq 0 (List.length
                       (flat_map contributors (transitions data))))
    /\ (NoDup (keys info) ->
        forall t',
          In t' (emitted_transitions (qual_tree info')) ->
          assigns species t' = true -> t' = t).
Proof.
  intros W D. destruct (@get_transitions_document model info W) as (info' & E & K & G).
  pose proof (G species) as Gs. rewrite D in Gs. simpl in Gs.
  exists info', (flat_map (reports (keys info)) (reactions_of model)),
    (extend (flat_map (contribution species) (reactions_of model)) data0),
    (transition species
       (extend (flat_map (contribution species) (reactions_of model)) data0)).
  split; [exact E|]. split; [exact Gs|]. split; [reflexivity|].
  split; [|split; [|split; [|split; [|split]]]].
  - rewrite emitted_transitions_tree. unfold add_transitions.
    apply dict_get_In in Gs.
    apply (in_map (fun kv => transition (fst kv) (snd kv)) _ _ Gs).
  - reflexivity.
  - reflexivity.
  - rewrite inputs_of_transition, numbered_refs, origin_of_flat. reflexivity.
  - rewrite inputs_of_transition, numbered_ids, <- origin_of_flat, length_map.
    reflexivity.
  - intros ND t' I A. rewrite emitted_transitions_tree in I.
    unfold add_transitions in I. apply in_map_iff in I.
    destruct I as ([k d] & <- & I). simpl in *.
    rewrite assigns_transition in A. apply Str_eqb_eq in A. subst k.
    rewrite <- K in ND. apply In_dict_get in I; [|exact ND].
    rewrite Gs in I. inversion I. reflexivity.
Qed.

(* ================================================================= *)
(** ** Defaults of species extraction, alias by alias *)




(* ================================================================= *)
(** ** The order of the emitted elements *)


(* ================================================================= *)
(** ** The revised theorems at the sample documents *)

Lemma unknown_products_are_skipped_m1 :
  Forall (fun trans => well_formed trans = true) (reactions_of Sample.m1)
  /\ exists info' data1 data2,
      get_transitions Sample.m1 Sample.table1
      = (Ok info', ["ignoring unknown species sa9"])
      /\ dict_get (Some "sa1") info' = Some data1
      /\ transitions data1 = []
      /\ dict_get (Some "sa2") info' = Some data2
      /\ transitions data2
         = [(Some "INHIBITION", [Some "sa1"],
             [(Some "INHIBITION", Some "sa3");
              (Some "CATALYSIS", Some "sa1")])]
      /\ dict_get (Some "sa9") info' = None.
Proof.
  assert (W : Forall (fun trans => well_formed trans = true)
                     (reactions_of Sample.m1)) by all_hold.
  split; [exact W|].
  destruct (@unknown_products_are_skipped Sample.m1 Sample.table1 W)
    as (info' & E & _ & G & Nn & _).
  destruct (G (Some "sa1") _ eq_refl) as (data1 & D1 & T1 & _).
  destruct (G (Some "sa2") _ eq_refl) as (data2 & D2 & T2 & _).
  exists info', data1, data2.
  split; [exact E|]. split; [exact D1|]. split; [exact T1|].
  split; [exact D2|]. split; [exact T2|].
  apply Nn. reflexivity.
Defined.

Lemma inputs_follow_document_order_m1 :
  Forall (fun trans => well_formed trans = true) (reactions_of Sample.m1)
  /\ (exists data0, dict_get (Some "sa2") Sample.table1 = Some data0)
  /\ exists info' out t,
      get_transitions Sample.m1 Sample.table1 = (Ok info', out)
      /\ In t (emitted_transitions (qual_tree info'))
      /\ nget "qual:id" t = Some (Some "tr_sa2")
      /\ map (nget "qual:id") (inputs_of t)
         = [Some (Some "tr_sa2_in_0"); Some (Some "tr_sa2_in_1");
            Some (Some "tr_sa2_in_2")]
      /\ map (nget "qual:qualitativeSpecies") (inputs_of t)
         = [Some (Some "sa1"); Some (Some "sa3"); Some (Some "sa1")].
Proof.
  assert (W : Forall (fun trans => well_formed trans = true)
                     (reactions_of Sample.m1)) by all_hold.
  assert (D : exists data0, dict_get (Some "sa2") Sample.table1 = Some data0).
  { eexists. reflexivity. }
  split; [exact W|]. split; [exact D|].
  destruct D as [data0 D].
  destruct (@inputs_follow_document_order
              Sample.m1 Sample.table1 (Some "sa2") data0 W D)
    as (info' & out & data & t & E & _ & T & I & Tid & _ & Rf & Id & _).
  exists info', out, t.
  split; [exact E|]. split; [exact I|]. split; [exact Tid|].
  vm_compute in D. inversion D. subst data0. clear D.
  rewrite Id, Rf, T. split; reflexivity.
Defined.


